(** * The DRRMS migration runner ([migrations/migrate.py])

    A shallow embedding of the migration runner: discovery of the migration
    scripts, selection of the scripts still to apply, the per-script apply
    protocol, the run loop, the status listing, the rollback notice and the
    command-line dispatch, followed by the properties of the runner.

    Conventions of the model.
    - A Python [str] is a Rocq [string]; a character stands for its code
      point, so the model covers the code points below 256.
    - The database server and the wall clock are an opaque environment
      [Env]: [execute] sends one statement and answers with the text of the
      raised [mysql.connector.Error], if any, [clock] reads the time of the
      server, and [elapsed_ms] gives the whole milliseconds between two
      readings of [time.time()].
    - The [_migrations] table is a finite map from [version] (its [UNIQUE]
      key, compared exactly) to the other columns; [migration_id] is left
      out, since the runner never reads it.  An absent table and an empty one
      are identified: the statement that creates the table when it is absent
      is an event of its own and leaves the rows as they are.
    - The model follows the runs in which no exception escapes the runner:
      the files that the listing names can be opened and decoded, and the
      runner's own statements on [_migrations] succeed.  The only errors it
      follows are a connection that cannot be made and the errors of the
      statements of a script.
    - What the runner does to the outside is collected as a list of
      [event]s, in the order in which it happens. *)

From stdpp Require Import base option list sorting strings gmap fin_maps.
From Stdlib Require Import Ascii ZArith Lia.
From Stdlib.Strings Require Import Byte.

(** ** Python string operations *)

Module PyStr.

(** [c.isdigit()] for one character: the decimal digits, and the superscript
    digits U+00B2, U+00B3 and U+00B9. *)
Definition isdigit (c : ascii) : bool :=
  let n := nat_of_ascii c in
  ((48 <=? n) && (n <=? 57)) || (n =? 178) || (n =? 179) || (n =? 185).

(** [c.isspace()] for one character, the set that [str.strip()] removes. *)
Definition isspace (c : ascii) : bool :=
  let n := nat_of_ascii c in
  ((9 <=? n) && (n <=? 13)) || ((28 <=? n) && (n <=? 32))
  || (n =? 133) || (n =? 160).

(** [s.startswith(p)] *)
Fixpoint startswith (p s : string) : bool :=
  match p, s with
  | EmptyString, _ => true
  | String a p', String b s' => if decide (a = b) then startswith p' s' else false
  | String _ _, EmptyString => false
  end.

(** [s.endswith(p)]: [p] is one of the suffixes of [s]. *)
Fixpoint endswith (p s : string) : bool :=
  bool_decide (s = p) ||
  match s with
  | EmptyString => false
  | String _ s' => endswith p s'
  end.

(** [sub in s] *)
Fixpoint contains (sub s : string) : bool :=
  startswith sub s ||
  match s with
  | EmptyString => false
  | String _ s' => contains sub s'
  end.

(** [s.split(sep)] for a separator of one character; the result is never
    empty. *)
Fixpoint split (sep : ascii) (s : string) : list string :=
  match s with
  | EmptyString => [EmptyString]
  | String c s' =>
      if decide (c = sep) then EmptyString :: split sep s'
      else match split sep s' with
           | [] => [String c EmptyString]
           | w :: ws => String c w :: ws
           end
  end.

(** [l[0]] on a list of strings known to be non-empty. *)
Definition item0 (l : list string) : string := hd EmptyString l.

Fixpoint lstrip (s : string) : string :=
  match s with
  | EmptyString => EmptyString
  | String c s' => if isspace c then lstrip s' else s
  end.

Fixpoint rstrip (s : string) : string :=
  match s with
  | EmptyString => EmptyString
  | String c s' =>
      match rstrip s' with
      | EmptyString => if isspace c then EmptyString else String c EmptyString
      | r => String c r
      end
  end.

(** [s.strip()] *)
Definition strip (s : string) : string := rstrip (lstrip s).

(** [s.replace(old, new)] for a non-empty [old]: the occurrences are found
    from the left and do not overlap.  [skip] counts the characters of an
    occurrence that are still to be dropped. *)
Fixpoint replace_go (old new : string) (skip : nat) (s : string) : string :=
  match s with
  | EmptyString => EmptyString
  | String c s' =>
      match skip with
      | S k => replace_go old new k s'
      | O =>
          if startswith old s
          then new +:+ replace_go old new (String.length old - 1) s'
          else String c (replace_go old new 0 s')
      end
  end.

Definition replace (old new s : string) : string := replace_go old new 0 s.

(** The truth value of a string: empty strings are false. *)
Definition truthy (s : string) : bool :=
  match s with EmptyString => false | _ => true end.

(** [sorted(l)] on strings: ascending in the order of the code points. *)
Definition sorted (l : list string) : list string := merge_sort String.le l.

End PyStr.

(** ** Discovery of the migration scripts *)

(** The dictionary built for each script by [get_pending_migrations]. *)
Record migration := Migration {
  version : string;
  name : string;
  filepath : string
}.

Global Instance migration_eq_dec : EqDecision migration.
Proof. solve_decision. Defined.

(** [os.path.join(d, f)] for a file name [f] out of a directory listing. *)
Definition path_join (d f : string) : string := d +:+ "/" +:+ f.

(** The test of [get_pending_migrations] on one file name.  The index [0] is
    only evaluated behind [endswith], hence on a non-empty name. *)
Definition is_migration_file (filename : string) : bool :=
  PyStr.endswith ".sql" filename &&
  match filename with
  | EmptyString => false
  | String c _ => PyStr.isdigit c
  end.

Definition file_version (filename : string) : string :=
  PyStr.item0 (PyStr.split "_"%char filename).

Definition file_name (filename : string) : string :=
  PyStr.replace ".sql" "" filename.

Section Discovery.

Variable MIGRATIONS_DIR : string.

Definition migration_of (filename : string) : migration :=
  {| version := file_version filename;
     name := file_name filename;
     filepath := path_join MIGRATIONS_DIR filename |}.

(** [get_pending_migrations()], on the answer [listing] of [os.listdir]. *)
Definition get_pending_migrations (listing : list string) : list migration :=
  migration_of <$> filter (λ f, is_migration_file f = true) (PyStr.sorted listing).

End Discovery.

(** ** The tracking table *)

(** The [ENUM] of the [status] column. *)
Inductive status := pending | applied | failed | rolled_back.

Global Instance status_eq_dec : EqDecision status.
Proof. solve_decision. Defined.

(** One row of [_migrations] without its key [version].  The columns that the
    schema leaves nullable are options. *)
Record row := Row {
  row_name : string;
  applied_at : option Z;
  applied_by : option string;
  checksum : option string;
  execution_time_ms : option Z;
  row_status : status
}.

Global Instance row_eq_dec : EqDecision row.
Proof. solve_decision. Defined.

(** ** What the runner prints and sends *)

(** The glyph that [show_status] puts before a status. *)
Inductive glyph := Check_mark | Cross_mark | Hourglass.

Record status_line := StatusLine {
  line_version : string;
  line_name : string;
  line_icon : glyph;
  line_status : status;
  line_applied : option Z
}.

(** The [print] calls of the runner, by the place they come from. *)
Inductive message :=
| MsgBanner
| MsgConnectionFailed
| MsgApplying (n : string)
| MsgApplied (ms : Z)
| MsgFailed (err : string)
| MsgNoPending
| MsgFound (n : nat)
| MsgStopping
| MsgComplete
| MsgStatus (lines : list status_line)
| MsgRollback (v : string)
| MsgUsage.

(** [Execute script sql]: [cursor.execute(sql)] for a statement of the script
    at path [script].  [Upsert v n st]: the [INSERT ... ON DUPLICATE KEY
    UPDATE] on [_migrations] with parameters [v], [n] and the status literal
    [st].  [Commit]: [conn.commit()].  [Create_table]: the [CREATE TABLE IF
    NOT EXISTS _migrations] of [ensure_migration_table]. *)
Inductive event :=
| Print (m : message)
| Execute (script sql : string)
| Upsert (v n : string) (st : status)
| Commit
| Create_table.

Global Instance glyph_eq_dec : EqDecision glyph.
Proof. solve_decision. Defined.
Global Instance status_line_eq_dec : EqDecision status_line.
Proof. solve_decision. Defined.
Global Instance message_eq_dec : EqDecision message.
Proof. solve_decision. Defined.
Global Instance event_eq_dec : EqDecision event.
Proof. solve_decision. Defined.

(** The files of the migrations directory: the answer of [os.listdir], the
    text that [open(path, 'r', encoding='utf-8').read()] gives at each path,
    and the bytes that [open(path, 'rb').read()] gives there. *)
Record filesystem := Filesystem {
  listdir : list string;
  read_text : string → string;
  read_bytes : string → list byte
}.

(** ** The runner *)

Section Runner.

(** The database server together with the wall clock. *)
Variable Env : Type.
(** [cursor.execute(sql)] on a statement of a script: the text [str(e)] of
    the error raised, if any, and the environment afterwards. *)
Variable execute : string → Env → option string * Env.
(** The time of the server, as [CURRENT_TIMESTAMP] gives it. *)
Variable clock : Env → Z.
(** [int((t1 - t0) * 1000)] for the readings [t0] and [t1] of [time.time()]
    in two environments. *)
Variable elapsed_ms : Env → Env → Z.
(** [hashlib.md5(...).hexdigest()] of the bytes of a file. *)
Variable md5 : list byte → string.
(** [USER()] *)
Variable db_user : string.
Variable MIGRATIONS_DIR : string.
Variable fs : filesystem.

Record World := MkWorld {
  env : Env;
  migrations : gmap string row
}.

(** Computations of the runner: they read and change the world and emit
    events. *)
Definition M (A : Type) : Type := World → A * World * list event.

Definition ret {A} (a : A) : M A := λ w, (a, w, []).

Definition bind {A B} (c : M A) (k : A → M B) : M B :=
  λ w, let '(a, w1, e1) := c w in
       let '(b, w2, e2) := k a w1 in
       (b, w2, e1 ++ e2).

Definition emit (e : event) : M unit := λ w, (tt, w, [e]).
Definition print (m : message) : M unit := emit (Print m).
(** [time.time()]: the reading is kept as the environment it is taken in. *)
Definition time_time : M Env := λ w, (env w, w, []).
Definition conn_commit : M unit := emit Commit.

Global Instance M_ret : MRet M := @ret.
Global Instance M_bind : MBind M := λ A B k c, bind c k.

Definition result_of {A} (r : A * World * list event) : A := r.1.1.
Definition world_of {A} (r : A * World * list event) : World := r.1.2.
Definition events_of {A} (r : A * World * list event) : list event := r.2.

(** [get_file_checksum(filepath)] *)
Definition get_file_checksum (path : string) : string :=
  md5 (read_bytes fs path).

(** [ensure_migration_table]: [CREATE TABLE IF NOT EXISTS] is sent; it
    creates the table when it is absent and changes no row. *)
Definition ensure_migration_table : M unit := emit Create_table.

(** [get_applied_migrations]: the versions whose row has status
    ['applied'], as a set. *)
Definition get_applied_migrations : M (gset string) :=
  λ w, (dom (filter (λ kv, row_status kv.2 = applied) (migrations w)), w, []).

(** The row that a success leaves at version [v]: new, or the old one with
    three columns updated. *)
Definition applied_row (w : World) (v n sum : string) (ms : Z) : row :=
  match migrations w !! v with
  | None => Row n (Some (clock (env w))) (Some db_user) (Some sum) (Some ms) applied
  | Some r0 =>
      Row (row_name r0) (Some (clock (env w))) (applied_by r0) (checksum r0)
          (Some ms) applied
  end.

(** The row that a failure leaves at version [v]: new, or the old one with
    its status updated. *)
Definition failed_row (w : World) (v n : string) : row :=
  match migrations w !! v with
  | None => Row n (Some (clock (env w))) None None None failed
  | Some r0 =>
      Row (row_name r0) (applied_at r0) (applied_by r0) (checksum r0)
          (execution_time_ms r0) failed
  end.

(** The statement that records a success: a new row with the checksum, the
    time taken and the user, or, on an existing row, the three columns of
    its [ON DUPLICATE KEY UPDATE] clause. *)
Definition upsert_applied (v n sum : string) (ms : Z) : M unit :=
  λ w, (tt, MkWorld (env w) (<[v := applied_row w v n sum ms]> (migrations w)),
        [Upsert v n applied]).

(** The statement that records a failure: a new row whose [applied_at]
    takes the column default, or, on an existing row, the status alone. *)
Definition upsert_failed (v n : string) : M unit :=
  λ w, (tt, MkWorld (env w) (<[v := failed_row w v n]> (migrations w)),
        [Upsert v n failed]).

(** [cursor.execute(statement)] inside [apply_migration]. *)
Definition cursor_execute (script sql : string) : M (option string) :=
  λ w, let '(err, e') := execute sql (env w) in
       (err, MkWorld e' (migrations w), [Execute script sql]).

(** The errors that the statement loop swallows. *)
Definition tolerated (err : string) : bool :=
  negb (negb (PyStr.contains "Duplicate" err)
        && negb (PyStr.contains "already exists" err)).

(** The guard of the statement loop. *)
Definition is_executed (statement : string) : bool :=
  PyStr.truthy statement
  && negb (PyStr.startswith "--" statement)
  && negb (PyStr.startswith "/*" statement).

(** [[s.strip() for s in sql_content.split(';') if s.strip()]] *)
Definition split_statements (sql_content : string) : list string :=
  filter (λ s, PyStr.truthy s = true)
         (PyStr.strip <$> PyStr.split ";"%char sql_content).

(** The statement loop of [apply_migration]; the answer is the error that
    leaves the loop, if any. *)
Fixpoint run_statements (script : string) (statements : list string)
  : M (option string) :=
  match statements with
  | [] => ret None
  | statement :: rest =>
      if is_executed statement then
        r ← cursor_execute script statement;
        match r with
        | None => run_statements script rest
        | Some err =>
            if tolerated err then run_statements script rest
            else ret (Some err)
        end
      else run_statements script rest
  end.

(** [apply_migration(cursor, migration)] *)
Definition apply_migration (m : migration) : M bool :=
  print (MsgApplying (name m));;
  start_time ← time_time;
  let sql_content := read_text fs (filepath m) in
  let statements := split_statements sql_content in
  r ← run_statements (filepath m) statements;
  match r with
  | None =>
      end_time ← time_time;
      let execution_time := elapsed_ms start_time end_time in
      let sum := get_file_checksum (filepath m) in
      upsert_applied (version m) (name m) sum execution_time;;
      print (MsgApplied execution_time);;
      ret true
  | Some err =>
      print (MsgFailed err);;
      upsert_failed (version m) (name m);;
      ret false
  end.

Definition status_icon (st : status) : glyph :=
  match st with
  | applied => Check_mark
  | failed => Cross_mark
  | _ => Hourglass
  end.

(** The rows of [_migrations], [ORDER BY version]. *)
Definition select_status (t : gmap string row) : list status_line :=
  (λ kv : string * row,
     StatusLine kv.1 (row_name kv.2) (status_icon (row_status kv.2))
                (row_status kv.2) (applied_at kv.2))
  <$> merge_sort (λ a b : string * row, String.le a.1 b.1) (map_to_list t).

(** [show_status(cursor)] *)
Definition show_status : M unit :=
  λ w, (tt, w, [Print (MsgStatus (select_status (migrations w)))]).

(** The [for] loop of [migrate], with its [break]. *)
Fixpoint migrate_loop (to_apply : list migration) : M unit :=
  match to_apply with
  | [] => ret tt
  | m :: rest =>
      success ← apply_migration m;
      conn_commit;;
      if (success : bool) then migrate_loop rest
      else print MsgStopping
  end.

(** In the loop over [to_apply] from the world [w], the script at position
    [k] is reached and fails: the ones before it have succeeded. *)
Inductive fails_at : list migration → World → nat → Prop :=
| fails_here m rest w :
    (apply_migration m w).1.1 = false → fails_at (m :: rest) w 0
| fails_later m rest w k :
    (apply_migration m w).1.1 = true →
    fails_at rest (apply_migration m w).1.2 k →
    fails_at (m :: rest) w (S k).

(** [[m for m in pending if m['version'] not in applied]] *)
Definition select_to_apply (applied_versions : gset string)
    (pending_migrations : list migration) : list migration :=
  filter (λ m, version m ∉ applied_versions) pending_migrations.

(** The body of the [try] block of [migrate]. *)
Definition migrate_body : M unit :=
  ensure_migration_table;;
  conn_commit;;
  applied_versions ← get_applied_migrations;
  let pending_migrations :=
    get_pending_migrations MIGRATIONS_DIR (listdir fs) in
  let to_apply := select_to_apply applied_versions pending_migrations in
  (match to_apply with
   | [] => print MsgNoPending
   | _ :: _ =>
       print (MsgFound (length to_apply));;
       migrate_loop to_apply;;
       print MsgComplete
   end);;
  show_status.

(** How a process ends: its exit status, the world it leaves ([None] when
    the server could not be reached) and its events. *)
Record outcome := Outcome {
  exit_status : Z;
  final_world : option World;
  trace : list event
}.

(** A computation on the connection of [get_connection()], which ends the
    process with status 1 when the server cannot be reached.  [before] are
    the events that precede the connection. *)
Definition with_connection (before : list event) (server : option World)
    (body : M unit) : outcome :=
  match server with
  | None => Outcome 1 None (before ++ [Print MsgConnectionFailed])
  | Some w =>
      let '(_, w', evs) := body w in Outcome 0 (Some w') (before ++ evs)
  end.

(** [migrate()] *)
Definition migrate (server : option World) : outcome :=
  with_connection [Print MsgBanner] server migrate_body.

(** [rollback(version)]: three lines of advice. *)
Definition rollback (v : string) : list event := [Print (MsgRollback v)].

(** The [__main__] block on [sys.argv]. *)
Definition main (argv : list string) (server : option World) : outcome :=
  match argv with
  | _ :: command :: rest =>
      if decide (command = "status") then
        with_connection [] server (ensure_migration_table;; show_status)
      else if decide (command = "rollback") then
        match rest with
        | v :: _ => Outcome 0 server (rollback v)
        | [] => Outcome 0 server [Print MsgUsage]
        end
      else Outcome 0 server [Print MsgUsage]
  | _ => migrate server
  end.

End Runner.

Arguments MkWorld {Env} _ _.
Arguments env {Env} _.
Arguments migrations {Env} _.
Arguments result_of {Env A} _.
Arguments world_of {Env A} _.
Arguments events_of {Env A} _.
Arguments Outcome {Env} _ _ _.
Arguments exit_status {Env} _.
Arguments final_world {Env} _.
Arguments trace {Env} _.
Arguments fails_at {Env} _ _ _ _ _ _ _ _ _.

(** ** Reading a list of events *)

(** The statements of scripts that were sent, each with its script. *)
Definition executed (evs : list event) : list (string * string) :=
  omap (λ e, match e with Execute script sql => Some (script, sql) | _ => None end) evs.

(** The rows of [_migrations] that were written: version, name, status. *)
Definition upserts (evs : list event) : list (string * string * status) :=
  omap (λ e, match e with Upsert v n st => Some (v, n, st) | _ => None end) evs.

(** The scripts whose attempt was announced, by the name printed. *)
Definition attempted (evs : list event) : list string :=
  omap (λ e, match e with Print (MsgApplying n) => Some n | _ => None end) evs.

(** ** A small environment to run the model on *)

Module Demo.

(** The environment counts the statements it has received; the clock
    advances by ten milliseconds with each of them. *)
Definition Env := Z.

(** Statements fail by what they contain: [BAD] is a syntax error,
    [TWICE] creates a table that exists, [DUPKEY] inserts a key again. *)
Definition execute (sql : string) (e : Env) : option string * Env :=
  (if PyStr.contains "BAD" sql
   then Some "1064 (42000): You have an error in your SQL syntax"
   else if PyStr.contains "TWICE" sql
   then Some "1050 (42S01): Table 'Foo' already exists"
   else if PyStr.contains "DUPKEY" sql
   then Some "1062 (23000): Duplicate entry '1' for key 'PRIMARY'"
   else None,
   (e + 1)%Z).

Definition clock (e : Env) : Z := (10 * e)%Z.

(** A server that loses the connection on the first statement it receives
    and works from then on. *)
Definition execute_flaky (sql : string) (e : Env) : option string * Env :=
  (if (e <? 1)%Z
   then Some "2013 (HY000): Lost connection to MySQL server during query"
   else None,
   (e + 1)%Z).

(** Ten milliseconds pass with each statement. *)
Definition elapsed_ms (e0 e1 : Env) : Z := (10 * (e1 - e0))%Z.

Definition md5 (bytes : list byte) : string :=
  "md5:" +:+ String.string_of_list_byte bytes.

(** The text of the file at a path of the directory [m]. *)
Definition text_at (contents : list (string * string)) (path : string) : string :=
  match list_find (λ kv, path_join "m" kv.1 = path) contents with
  | Some (_, (_, text)) => text
  | None => ""
  end.

(** A directory of files whose texts are plain ASCII, so that the bytes of
    a file are the code points of its text. *)
Definition files (contents : list (string * string)) : filesystem :=
  Filesystem (contents.*1) (text_at contents)
    (λ path, String.list_byte_of_string (text_at contents path)).

Definition apply := apply_migration Env execute clock elapsed_ms md5 "root@localhost".
Definition run := migrate Env execute clock elapsed_ms md5 "root@localhost" "m".
Definition cli := main Env execute clock elapsed_ms md5 "root@localhost" "m".
Definition world0 : World Env := MkWorld 0%Z ∅.

End Demo.

(** ** Notions of the specification *)

(** The leading run of digits of a file name. *)
Fixpoint leading_digits (s : string) : string :=
  match s with
  | EmptyString => EmptyString
  | String c s' => if PyStr.isdigit c then String c (leading_digits s') else EmptyString
  end.

(** Strictly ascending order on strings, by code points: the order of
    [sorted] on file names and of [ORDER BY] on versions. *)
Definition str_lt : relation string := strict String.le.

(** The first [*/] of a text is its end. *)
Fixpoint closes_at_end (s : string) : bool :=
  match s with
  | EmptyString => false
  | String _ s' =>
      if PyStr.startswith "*/" s then bool_decide (s = "*/") else closes_at_end s'
  end.

(** A fragment that is nothing but comments, read generously: one block
    comment, or lines each of which is blank or begins with [--]. *)
Definition is_pure_comment (fragment : string) : bool :=
  let f := PyStr.strip fragment in
  match f with
  | String "/" (String "*" body) => closes_at_end body
  | _ => false
  end
  || (PyStr.truthy f
      && forallb (λ l, PyStr.startswith "--" (PyStr.strip l)
                       || negb (PyStr.truthy (PyStr.strip l)))
                 (PyStr.split "010" f)).

(** * Properties *)

(** ** Strings *)

Lemma append_cons a s t : String a s +:+ t = String a (s +:+ t).
Proof. reflexivity. Qed.

Lemma append_nil_l s : "" +:+ s = s.
Proof. reflexivity. Qed.

Lemma append_nil_r s : s +:+ "" = s.
Proof. induction s as [|a s IH]; [done|]. by rewrite append_cons, IH. Qed.

Lemma append_assoc s t u : (s +:+ t) +:+ u = s +:+ (t +:+ u).
Proof. induction s as [|a s IH]; [done|]. by rewrite !append_cons, IH. Qed.

Lemma startswith_spec p s :
  PyStr.startswith p s = true ↔ ∃ r, s = p +:+ r.
Proof.
  revert s. induction p as [|a p IH]; intros s; simpl.
  - split; [intros _; by exists s | done].
  - destruct s as [|b s].
    + split; [done | intros [r Hr]; by rewrite append_cons in Hr].
    + destruct (decide (a = b)) as [->|Hne].
      * rewrite IH. split; intros [r Hr]; exists r.
        -- by rewrite append_cons, Hr.
        -- rewrite append_cons in Hr. congruence.
      * split; [done | intros [r Hr]; rewrite append_cons in Hr; congruence].
Qed.

Lemma endswith_spec p s :
  PyStr.endswith p s = true ↔ ∃ q, s = q +:+ p.
Proof.
  induction s as [|a s IH]; simpl.
  - rewrite orb_false_r, bool_decide_eq_true. split.
    + intros <-. by exists "".
    + intros [[|b q] Hq]; [done | by rewrite append_cons in Hq].
  - rewrite orb_true_iff, bool_decide_eq_true, IH. split.
    + intros [<- | [q ->]]; [by exists "" | by exists (String a q)].
    + intros [[|b q] Hq]; [by left | right].
      rewrite append_cons in Hq. exists q. congruence.
Qed.

Lemma contains_spec sub s :
  PyStr.contains sub s = true ↔ ∃ a b, s = a +:+ sub +:+ b.
Proof.
  induction s as [|c s IH]; simpl.
  - rewrite orb_false_r, startswith_spec. split.
    + intros [r Hr]. by exists "", r.
    + intros [[|x a] [b Hb]]; [by exists b | by rewrite append_cons in Hb].
  - rewrite orb_true_iff, startswith_spec, IH. split.
    + intros [[r Hr] | (a & b & ->)]; [by exists "", r | by exists (String c a), b].
    + intros [[|x a] [b Hb]]; [left; by exists b | right].
      rewrite append_cons in Hb. exists a, b. congruence.
Qed.

(** The version of a file name is what stands before its first underscore,
    and the whole name when there is none. *)
Lemma file_version_spec f :
  ∃ rest, f = file_version f +:+ rest
          ∧ (rest = "" ∨ PyStr.startswith "_" rest = true)
          ∧ PyStr.contains "_" (file_version f) = false.
Proof.
  unfold file_version. induction f as [|c f (rest & Hf & Hrest & Hno)]; simpl.
  - exists "". split; [done|]. split; [by left | done].
  - destruct (decide (c = "_"%char)) as [->|Hc]; simpl.
    + exists (String "_" f). split; [done|]. split; [by right | done].
    + assert (Hd : PyStr.startswith "_" (String c "") = false).
      { simpl. destruct (decide ("_"%char = c)); [congruence|done]. }
      destruct (PyStr.split "_" f) as [|w ws] eqn:Hs; simpl in *.
      * exists rest. rewrite append_nil_l in Hf. subst rest.
        split; [by rewrite append_cons|]. split; [done|].
        destruct (decide ("_"%char = c)); [congruence|done].
      * exists rest. split; [by rewrite append_cons, <- Hf|]. split; [done|].
        destruct (decide ("_"%char = c)) as [|_]; [congruence|].
        exact Hno.
Qed.

(** ** Splitting and stripping *)

Lemma split_not_nil sep s : PyStr.split sep s ≠ [].
Proof.
  destruct s as [|c s]; simpl; [done|].
  destruct (decide (c = sep)); [done|]. by destruct (PyStr.split sep s).
Qed.

Lemma split_cons sep c s :
  PyStr.split sep (String c s) =
  if decide (c = sep) then "" :: PyStr.split sep s
  else match PyStr.split sep s with
       | [] => [String c ""]
       | w :: ws => String c w :: ws
       end.
Proof. reflexivity. Qed.

(** Splitting a text at one of its separators. *)
Lemma split_app sep a b :
  PyStr.split sep (a +:+ String sep b) = PyStr.split sep a ++ PyStr.split sep b.
Proof.
  induction a as [|c a IH].
  - rewrite append_nil_l, split_cons. by rewrite decide_True.
  - rewrite append_cons, !split_cons, IH.
    destruct (decide (c = sep)); [done|].
    pose proof (split_not_nil sep a). by destruct (PyStr.split sep a).
Qed.

Lemma contains_char_cons x c s :
  PyStr.contains (String x "") (String c s)
  = bool_decide (x = c) || PyStr.contains (String x "") s.
Proof. simpl. by destruct (decide (x = c)); [rewrite bool_decide_eq_true_2|rewrite bool_decide_eq_false_2]. Qed.

Lemma split_no_separator sep s p :
  p ∈ PyStr.split sep s → PyStr.contains (String sep "") p = false.
Proof.
  revert p. induction s as [|c s IH]; intros p.
  - intros ->%list_elem_of_singleton. done.
  - rewrite split_cons. destruct (decide (c = sep)) as [->|Hc].
    + intros [->|Hp]%elem_of_cons; [done | by apply IH].
    + pose proof (split_not_nil sep s).
      destruct (PyStr.split sep s) as [|w ws]; [done|].
      intros [->|Hp]%elem_of_cons.
      * rewrite contains_char_cons, bool_decide_eq_false_2 by done.
        apply IH. left.
      * apply IH. by right.
Qed.

Lemma lstrip_no_char x s :
  PyStr.contains (String x "") s = false →
  PyStr.contains (String x "") (PyStr.lstrip s) = false.
Proof.
  induction s as [|c s IH]; [done|]. intros H. simpl PyStr.lstrip.
  destruct (PyStr.isspace c); [|done]. apply IH.
  rewrite contains_char_cons in H. by apply orb_false_iff in H as [_ ?].
Qed.

Lemma rstrip_cons c s :
  PyStr.rstrip (String c s) =
  match PyStr.rstrip s with
  | EmptyString => if PyStr.isspace c then "" else String c ""
  | r => String c r
  end.
Proof. reflexivity. Qed.

Lemma rstrip_no_char x s :
  PyStr.contains (String x "") s = false →
  PyStr.contains (String x "") (PyStr.rstrip s) = false.
Proof.
  induction s as [|c s IH]; [done|]. rewrite contains_char_cons.
  intros [Hc Hs]%orb_false_iff. specialize (IH Hs). rewrite rstrip_cons.
  destruct (PyStr.rstrip s) as [|d r].
  - destruct (PyStr.isspace c); [done|].
    by rewrite contains_char_cons, Hc.
  - by rewrite contains_char_cons, Hc.
Qed.

Lemma rstrip_idemp s : PyStr.rstrip (PyStr.rstrip s) = PyStr.rstrip s.
Proof.
  induction s as [|c s IH]; [done|]. rewrite rstrip_cons.
  destruct (PyStr.rstrip s) as [|d r] eqn:Hr.
  - destruct (PyStr.isspace c) eqn:Hc; [done|].
    by rewrite rstrip_cons, Hc.
  - by rewrite rstrip_cons, IH.
Qed.

Lemma lstrip_rstrip_lstrip s :
  PyStr.lstrip (PyStr.rstrip (PyStr.lstrip s)) = PyStr.rstrip (PyStr.lstrip s).
Proof.
  induction s as [|c s IH]; [done|]. simpl PyStr.lstrip at 2 3.
  destruct (PyStr.isspace c) eqn:Hc; [exact IH|].
  rewrite rstrip_cons.
  destruct (PyStr.rstrip s); rewrite ?Hc; simpl; by rewrite Hc.
Qed.

Lemma strip_idemp s : PyStr.strip (PyStr.strip s) = PyStr.strip s.
Proof.
  unfold PyStr.strip. by rewrite lstrip_rstrip_lstrip, rstrip_idemp.
Qed.

(** X6: the statements of a text that has a semicolon are the statements
    of what stands before it followed by the statements of what stands after
    it: a semicolon always ends a statement, also inside a string literal or
    a comment. *)
Theorem X6_statements_split_at_semicolons (a b : string) :
  split_statements (a +:+ ";" +:+ b) = split_statements a ++ split_statements b.
Proof.
  unfold split_statements.
  change (a +:+ ";" +:+ b) with (a +:+ String ";" b).
  by rewrite split_app, fmap_app, filter_app.
Qed.

(** X7: a statement taken from a script is never empty, has no whitespace
    left around it and holds no semicolon. *)
Theorem X7_statements_are_trimmed (text s : string) :
  s ∈ split_statements text →
  s ≠ "" ∧ PyStr.strip s = s ∧ PyStr.contains ";" s = false.
Proof.
  unfold split_statements.
  intros [Ht (p & -> & Hp)%list_elem_of_fmap]%list_elem_of_filter.
  split; [by destruct (PyStr.strip p)|]. split; [apply strip_idemp|].
  unfold PyStr.strip. apply rstrip_no_char, lstrip_no_char.
  by eapply split_no_separator.
Qed.

(** ** The name of a script *)

Lemma startswith_sql_boundary s :
  PyStr.startswith ".sql" (s +:+ ".sql") = true →
  s = "" ∨ PyStr.startswith ".sql" s = true.
Proof.
  destruct s as [|c1 [|c2 [|c3 [|c4 s]]]]; [by left|..];
    rewrite ?append_cons, ?append_nil_l; simpl;
    repeat (case_decide; [subst|done]); auto; done.
Qed.

(** X5: for a file name that ends in [.sql] and holds no other [.sql], the
    name recorded for the script is the file name without this ending. *)
Theorem X5_name_drops_the_extension (d stem : string) :
  PyStr.contains ".sql" stem = false →
  name (migration_of d (stem +:+ ".sql")) = stem.
Proof.
  simpl. unfold file_name, PyStr.replace.
  induction stem as [|c stem IH]; [done|]. intros Hc.
  change (PyStr.contains ".sql" (String c stem))
    with (PyStr.startswith ".sql" (String c stem) || PyStr.contains ".sql" stem)
    in Hc.
  apply orb_false_iff in Hc as [Hstart Hrest].
  rewrite append_cons.
  change (PyStr.replace_go ".sql" "" 0 (String c (stem +:+ ".sql")))
    with (if PyStr.startswith ".sql" (String c (stem +:+ ".sql"))
          then "" +:+ PyStr.replace_go ".sql" "" 3 (stem +:+ ".sql")
          else String c (PyStr.replace_go ".sql" "" 0 (stem +:+ ".sql"))).
  destruct (PyStr.startswith ".sql" (String c (stem +:+ ".sql"))) eqn:Hb.
  - rewrite <- append_cons in Hb.
    apply startswith_sql_boundary in Hb as [?|Hb]; [done|congruence].
  - by rewrite IH.
Qed.

(** ** Order of the file names *)

Lemma sorted_Permutation l : PyStr.sorted l ≡ₚ l.
Proof. apply merge_sort_Permutation. Qed.

Lemma sorted_StronglySorted l : StronglySorted String.le (PyStr.sorted l).
Proof. apply StronglySorted_merge_sort; apply _. Qed.

(** The listing order is forgotten by [sorted]. *)
Lemma sorted_listing_order l l' : l' ≡ₚ l → PyStr.sorted l' = PyStr.sorted l.
Proof.
  intros Hp. apply (Sorted_unique String.le).
  - apply Sorted_merge_sort, _.
  - apply Sorted_merge_sort, _.
  - by rewrite !sorted_Permutation.
Qed.

Lemma StronglySorted_sublist {A} (R : relation A) (l k : list A) :
  l `sublist_of` k → StronglySorted R k → StronglySorted R l.
Proof.
  induction 1 as [|x l k Hs IH|x l k Hs IH]; intros Hk.
  - constructor.
  - apply StronglySorted_inv in Hk as [Hk Hx]. constructor; [by apply IH|].
    rewrite Forall_forall in Hx |- *. intros y Hy. apply Hx.
    by eapply elem_of_sublist.
  - apply StronglySorted_inv in Hk as [Hk _]. by apply IH.
Qed.

Lemma StronglySorted_strict (l : list string) :
  NoDup l → StronglySorted String.le l → StronglySorted str_lt l.
Proof.
  induction 2 as [|x l Hl IH Hx]; [constructor|].
  apply NoDup_cons in H as [Hnin Hnd]. constructor; [by apply IH|].
  rewrite Forall_forall in Hx |- *. intros y Hy. split; [by apply Hx|].
  intros Hyx. assert (x = y) by (apply (anti_symm String.le); auto).
  by subst.
Qed.

Lemma le_unfold a s b t :
  String.le (String a s) (String b t) ↔
  match Ascii.compare a b with
  | Eq => String.le s t
  | Lt => True
  | Gt => False
  end.
Proof.
  unfold String.le, String.leb. simpl.
  by destruct (Ascii.compare a b).
Qed.

(** Two names in ascending order whose versions have the same length have
    their versions in ascending order. *)
Lemma le_prefix_same_length p q x y :
  String.length p = String.length q →
  String.le (p +:+ x) (q +:+ y) → String.le p q.
Proof.
  revert q. induction p as [|a p IH]; intros [|b q] Hlen; simplify_eq/=.
  - done.
  - rewrite !append_cons, !le_unfold.
    destruct (Ascii.compare a b); [by apply IH | done | done].
Qed.

(** ** Discovery *)

Lemma is_migration_file_spec f :
  is_migration_file f = true ↔
  (∃ stem, f = stem +:+ ".sql") ∧ (∃ c r, f = String c r ∧ PyStr.isdigit c = true).
Proof.
  unfold is_migration_file. rewrite andb_true_iff, endswith_spec.
  apply and_iff_compat_l. destruct f as [|c r].
  - split; [done | by intros (? & ? & ? & _)].
  - split; [by exists c, r | by intros (? & ? & [= <- <-] & ?)].
Qed.

Lemma path_join_inj d f g : path_join d f = path_join d g → f = g.
Proof.
  unfold path_join. intros H%(inj (String.app d)). by apply (inj (String.app "/")) in H.
Qed.

Lemma migration_of_inj d f g : migration_of d f = migration_of d g → f = g.
Proof. intros [= _ _ H]. by eapply path_join_inj. Qed.

Lemma elem_of_get_pending_migrations d listing m :
  m ∈ get_pending_migrations d listing ↔
  ∃ f, f ∈ listing ∧ is_migration_file f = true ∧ m = migration_of d f.
Proof.
  unfold get_pending_migrations. rewrite list_elem_of_fmap.
  split; intros (f & H1 & H2); exists f.
  - apply list_elem_of_filter in H2 as [? Hin].
    rewrite sorted_Permutation in Hin. done.
  - destruct H2 as [? ->]. split; [done|].
    apply list_elem_of_filter. by rewrite sorted_Permutation.
Qed.

Lemma leading_digits_prefix f : ∃ rest, f = leading_digits f +:+ rest.
Proof.
  induction f as [|c f [rest IH]]; simpl; [by exists ""|].
  destruct (PyStr.isdigit c); [|by eexists].
  exists rest. by rewrite append_cons, <- IH.
Qed.

Lemma leading_digits_no_underscore f :
  PyStr.contains "_" (leading_digits f) = false.
Proof.
  induction f as [|c f IH]; simpl; [done|].
  destruct (PyStr.isdigit c) eqn:Hc; [|done]. simpl.
  destruct (decide ("_"%char = c)) as [<-|_]; [done|]. exact IH.
Qed.

Lemma file_version_underscore d rest :
  PyStr.contains "_" d = false → file_version (d +:+ String "_" rest) = d.
Proof.
  unfold file_version. induction d as [|c d IH]; intros Hd.
  - simpl. done.
  - simpl in Hd. destruct (decide ("_"%char = c)) as [|Hne]; [done|].
    simpl in Hd. specialize (IH Hd). rewrite append_cons.
    change (PyStr.split "_" (String c (d +:+ String "_" rest)))
      with (if decide (c = "_"%char) then "" :: PyStr.split "_" (d +:+ String "_" rest)
            else match PyStr.split "_" (d +:+ String "_" rest) with
                 | [] => [String c ""]
                 | w :: ws => String c w :: ws
                 end).
    destruct (decide (c = "_"%char)); [congruence|].
    destruct (PyStr.split "_" (d +:+ String "_" rest)); simpl in *; by subst.
Qed.

Lemma leading_digits_not_sql stem :
  leading_digits (stem +:+ ".sql") ≠ stem +:+ ".sql".
Proof.
  induction stem as [|c stem IH]; [done|].
  rewrite append_cons. simpl. destruct (PyStr.isdigit c); [|done].
  intros [= H]. done.
Qed.

(** C2 (as amended): a file of the directory is discovered exactly when its
    name ends in [.sql] and begins with a digit; the version recorded for it
    is the part of the name before the first underscore (the whole name when
    it has none), which is the leading run of digits exactly when an
    underscore follows that run. *)
Theorem C2_discovery_and_version (d : string) (listing : list string) :
  (∀ m, m ∈ get_pending_migrations d listing ↔
        ∃ f, f ∈ listing
             ∧ (∃ stem, f = stem +:+ ".sql")
             ∧ (∃ c r, f = String c r ∧ PyStr.isdigit c = true)
             ∧ m = migration_of d f)
  ∧ (∀ f, version (migration_of d f) = file_version f
          ∧ ∃ rest, f = file_version f +:+ rest
                    ∧ (rest = "" ∨ PyStr.startswith "_" rest = true)
                    ∧ PyStr.contains "_" (file_version f) = false)
  ∧ (∀ f, is_migration_file f = true →
          (file_version f = leading_digits f
           ↔ ∃ rest, f = leading_digits f +:+ "_" +:+ rest)).
Proof.
  split; [|split].
  - intros m. rewrite elem_of_get_pending_migrations.
    split; intros (f & Hin & H); exists f; (split; [done|]).
    + destruct H as [H ->]. apply is_migration_file_spec in H as [? ?]. done.
    + destruct H as (H1 & H2 & ->). split; [|done].
      by apply is_migration_file_spec.
  - intros f. split; [done|]. apply file_version_spec.
  - intros f Hf. split.
    + intros Hv. destruct (file_version_spec f) as (rest & Hrest & [->|Hu] & _).
      * rewrite append_nil_r, Hv in Hrest.
        apply is_migration_file_spec in Hf as [[stem Hs] _].
        rewrite Hs in Hrest. by apply eq_sym, leading_digits_not_sql in Hrest.
      * apply startswith_spec in Hu as [r ->]. exists r. by rewrite <- Hv.
    + intros [rest Hrest]. rewrite Hrest at 1.
      apply file_version_underscore, leading_digits_no_underscore.
Qed.

Lemma C2_discovery_and_version_witness :
  is_migration_file "001_init.sql" = true
  ∧ (file_version "001_init.sql" = leading_digits "001_init.sql"
     ↔ ∃ rest, "001_init.sql" = leading_digits "001_init.sql" +:+ "_" +:+ rest).
Proof.
  split; [reflexivity|].
  apply (C2_discovery_and_version "m" ["001_init.sql"]). reflexivity.
Defined.

(** C2 (as stated) fails: [001-init.sql] is discovered, and the version
    recorded for it is the whole file name, not its leading digits. *)
Lemma C2_counterexample :
  is_migration_file "001-init.sql" = true
  ∧ get_pending_migrations "m" ["001-init.sql"]
    = [Migration "001-init.sql" "001-init" "m/001-init.sql"]
  ∧ leading_digits "001-init.sql" = "001"
  ∧ ¬ (∀ m, m ∈ get_pending_migrations "m" ["001-init.sql"] →
            ∃ f, f ∈ ["001-init.sql"] ∧ version m = leading_digits f).
Proof.
  split; [reflexivity|]. split; [vm_compute; reflexivity|].
  split; [reflexivity|]. intros H.
  destruct (H (Migration "001-init.sql" "001-init" "m/001-init.sql"))
    as (f & Hf & Hv).
  - vm_compute. left.
  - apply list_elem_of_singleton in Hf. subst f. vm_compute in Hv. discriminate.
Qed.

(** ** The apply protocol *)

Section RunnerProperties.

Context {Env : Type}.
Variable execute : string → Env → option string * Env.
Variable clock : Env → Z.
Variable elapsed_ms : Env → Env → Z.
Variable md5 : list byte → string.
Variable db_user : string.
Variable dir : string.
Variable fs : filesystem.

Local Abbreviation run_statements := (run_statements Env execute).
Local Abbreviation apply_migration := (apply_migration Env execute clock elapsed_ms md5 db_user fs).
Local Abbreviation applied_row := (applied_row Env clock db_user).
Local Abbreviation failed_row := (failed_row Env clock).
Local Abbreviation fails_at := (fails_at execute clock elapsed_ms md5 db_user fs).
Local Abbreviation migrate_loop := (migrate_loop Env execute clock elapsed_ms md5 db_user fs).
Local Abbreviation migrate_body := (migrate_body Env execute clock elapsed_ms md5 db_user dir fs).
Local Abbreviation migrate := (migrate Env execute clock elapsed_ms md5 db_user dir fs).
Local Abbreviation main := (main Env execute clock elapsed_ms md5 db_user dir fs).
Local Abbreviation to_apply_of w :=
  (select_to_apply
     (dom (filter (λ kv, row_status kv.2 = applied) (migrations w)))
     (get_pending_migrations dir (listdir fs))).
Local Abbreviation statements_of m :=
  (split_statements (read_text fs (filepath m))).

Lemma run_statements_cons script statement rest w :
  run_statements script (statement :: rest) w =
  if is_executed statement then
    let '(err, e') := execute statement (env w) in
    match err with
    | Some msg =>
        if tolerated msg
        then let '(r, w2, evs) :=
               run_statements script rest (MkWorld e' (migrations w)) in
             (r, w2, Execute script statement :: evs)
        else (Some msg, MkWorld e' (migrations w), [Execute script statement])
    | None =>
        let '(r, w2, evs) :=
          run_statements script rest (MkWorld e' (migrations w)) in
        (r, w2, Execute script statement :: evs)
    end
  else run_statements script rest w.
Proof.
  simpl. destruct (is_executed statement); [|done].
  unfold mbind, M_bind, bind, cursor_execute.
  destruct (execute statement (env w)) as [[msg|] e']; simpl.
  - destruct (tolerated msg); simpl; [|done].
    by destruct (run_statements script rest _) as [[r w2] evs].
  - by destruct (run_statements script rest _) as [[r w2] evs].
Qed.

(** The statement loop leaves the tracking table alone. *)
Lemma run_statements_migrations script statements w :
  migrations (world_of (run_statements script statements w)) = migrations w.
Proof.
  revert w. induction statements as [|s rest IH]; intros w; [done|].
  rewrite run_statements_cons. destruct (is_executed s); [|apply IH].
  destruct (execute s (env w)) as [[msg|] e'].
  - destruct (tolerated msg); [|done].
    specialize (IH (MkWorld e' (migrations w))).
    destruct (run_statements script rest _) as [[r w2] evs]. exact IH.
  - specialize (IH (MkWorld e' (migrations w))).
    destruct (run_statements script rest _) as [[r w2] evs]. exact IH.
Qed.

(** The statement loop only emits [Execute] events, for its own script and
    for statements that pass the guard, in the order of the list; it sends
    all of them unless an error leaves the loop. *)
Lemma run_statements_events script statements w :
  ∃ sent, events_of (run_statements script statements w)
          = Execute script <$> sent
        ∧ sent `prefix_of` filter (λ s, is_executed s = true) statements
        ∧ (result_of (run_statements script statements w) = None →
           sent = filter (λ s, is_executed s = true) statements).
Proof.
  revert w. induction statements as [|s rest IH]; intros w.
  { exists []. split; [done|]. split; [done|]. done. }
  rewrite run_statements_cons. rewrite filter_cons.
  destruct (is_executed s) eqn:Hs.
  2:{ rewrite decide_False by done. apply IH. }
  rewrite decide_True by done.
  destruct (execute s (env w)) as [[msg|] e'].
  - destruct (tolerated msg).
    + destruct (IH (MkWorld e' (migrations w))) as (sent & He & Hp & Hall).
      destruct (run_statements script rest _) as [[r w2] evs].
      exists (s :: sent). unfold events_of, result_of in *. simpl in *.
      split; [by rewrite He|]. split; [by apply prefix_cons|].
      intros Hr. by rewrite Hall.
    + exists [s]. split; [done|]. split; [|done].
      apply prefix_cons, prefix_nil.
  - destruct (IH (MkWorld e' (migrations w))) as (sent & He & Hp & Hall).
    destruct (run_statements script rest _) as [[r w2] evs].
    exists (s :: sent). unfold events_of, result_of in *. simpl in *.
    split; [by rewrite He|]. split; [by apply prefix_cons|].
    intros Hr. by rewrite Hall.
Qed.

Lemma apply_migration_unfold m w :
  apply_migration m w =
  let '(r, w1, evs) := run_statements (filepath m) (statements_of m) w in
  match r with
  | None =>
      let ms := elapsed_ms (env w) (env w1) in
      let sum := md5 (read_bytes fs (filepath m)) in
      (true,
       MkWorld (env w1)
         (<[version m := applied_row w1 (version m) (name m) sum ms]> (migrations w1)),
       Print (MsgApplying (name m)) :: evs
         ++ [Upsert (version m) (name m) applied; Print (MsgApplied ms)])
  | Some err =>
      (false,
       MkWorld (env w1)
         (<[version m := failed_row w1 (version m) (name m)]> (migrations w1)),
       Print (MsgApplying (name m)) :: evs
         ++ [Print (MsgFailed err); Upsert (version m) (name m) failed])
  end.
Proof.
  unfold apply_migration, mbind, M_bind, bind, print, emit, time_time, mret, M_ret, ret.
  simpl.
  destruct (run_statements (filepath m) (statements_of m) w) as [[[err|] w1] evs];
    simpl; rewrite ?app_nil_r; done.
Qed.

Lemma executed_app a b : executed (a ++ b) = executed a ++ executed b.
Proof. apply omap_app. Qed.

Lemma upserts_app a b : upserts (a ++ b) = upserts a ++ upserts b.
Proof. apply omap_app. Qed.

Lemma executed_Execute script sent :
  executed (Execute script <$> sent) = (λ sql, (script, sql)) <$> sent.
Proof. induction sent as [|s sent IH]; [done|]. cbn. by f_equal. Qed.

Lemma upserts_Execute script sent : upserts (Execute script <$> sent) = [].
Proof. by induction sent. Qed.

(** One attempt: the statements sent, the row written and the table left. *)
Lemma apply_migration_spec m w :
  let r := apply_migration m w in
  let st := if result_of r then applied else failed in
  let w1 := MkWorld (env (world_of r)) (migrations w) in
  ∃ sent,
    sent `prefix_of` filter (λ s, is_executed s = true) (statements_of m)
    ∧ (result_of r = true →
       sent = filter (λ s, is_executed s = true) (statements_of m))
    ∧ executed (events_of r) = (λ sql, (filepath m, sql)) <$> sent
    ∧ upserts (events_of r) = [(version m, name m, st)]
    ∧ ∃ new, row_status new = st
        ∧ migrations (world_of r) = <[version m := new]> (migrations w)
        ∧ (result_of r = false → new = failed_row w1 (version m) (name m))
        ∧ (result_of r = true → ∃ sum ms,
             new = applied_row w1 (version m) (name m) sum ms).
Proof.
  intros r st w1. subst r st w1. rewrite apply_migration_unfold.
  pose proof (run_statements_migrations (filepath m) (statements_of m) w) as Hm.
  destruct (run_statements_events (filepath m) (statements_of m) w)
    as (sent & He & Hp & Hall).
  destruct (run_statements (filepath m) (statements_of m) w) as [[r w1] evs].
  unfold world_of, events_of, result_of in *. simpl in *. subst evs.
  exists sent. destruct r as [err|]; simpl.
  - split; [done|]. split; [done|].
    rewrite executed_app, upserts_app, executed_Execute, upserts_Execute.
    split; [by rewrite app_nil_r|]. split; [done|].
    eexists. split; [|split; [by rewrite <- Hm|split; [|done]]].
    + unfold failed_row. by destruct (migrations w1 !! version m).
    + intros _. unfold failed_row. simpl. by rewrite Hm.
  - split; [done|]. split; [by intros _; apply Hall|].
    rewrite executed_app, upserts_app, executed_Execute, upserts_Execute.
    split; [by rewrite app_nil_r|]. split; [done|].
    eexists. split; [|split; [by rewrite <- Hm|split; [done|]]].
    + unfold applied_row. by destruct (migrations w1 !! version m).
    + intros _. eexists _, _. unfold applied_row. simpl. by rewrite Hm.
Qed.

(** ** The run loop *)

Lemma migrate_loop_cons m rest w :
  migrate_loop (m :: rest) w =
  let '(b, w1, e1) := apply_migration m w in
  if b then
    let '(u, w2, e2) := migrate_loop rest w1 in (u, w2, e1 ++ Commit :: e2)
  else (tt, w1, e1 ++ [Commit; Print MsgStopping]).
Proof.
  simpl. unfold mbind, M_bind, bind, conn_commit, print, emit.
  destruct (apply_migration m w) as [[[|] w1] e1]; simpl; [|done].
  by destruct (migrate_loop rest w1) as [[u w2] e2].
Qed.

Lemma migrate_body_unfold w :
  migrate_body w =
  let to_apply :=
    select_to_apply (dom (filter (λ kv, row_status kv.2 = applied) (migrations w)))
      (get_pending_migrations dir (listdir fs)) in
  match to_apply with
  | [] =>
      (tt, w, [Create_table; Commit; Print MsgNoPending;
               Print (MsgStatus (select_status (migrations w)))])
  | _ :: _ =>
      let '(_, w', evs) := migrate_loop to_apply w in
      (tt, w', Create_table :: Commit :: Print (MsgFound (length to_apply)) :: evs
                 ++ [Print MsgComplete;
                     Print (MsgStatus (select_status (migrations w')))])
  end.
Proof.
  unfold migrate_body, mbind, M_bind, bind, ensure_migration_table,
    conn_commit, print, emit, get_applied_migrations, show_status, mret, M_ret, ret.
  simpl.
  destruct (select_to_apply _ _) as [|m ms] eqn:Hsel; [done|].
  remember (m :: ms) as to_apply. clear Heqto_apply.
  unfold print, emit. simpl.
  destruct (migrate_loop to_apply w) as [[u w'] evs].
  simpl. by rewrite <- app_assoc.
Qed.

Lemma upserts_cons e evs :
  upserts (e :: evs) =
  match e with Upsert v n st => (v, n, st) :: upserts evs | _ => upserts evs end.
Proof. by destruct e. Qed.

Lemma executed_cons e evs :
  executed (e :: evs) =
  match e with
  | Execute script sql => (script, sql) :: executed evs
  | _ => executed evs
  end.
Proof. by destruct e. Qed.

Ltac loop_step m w Hspec b w1 e1 :=
  rewrite migrate_loop_cons;
  pose proof (apply_migration_spec m w) as Hspec;
  destruct (apply_migration m w) as [[b w1] e1];
  unfold result_of, world_of, events_of in Hspec; simpl in Hspec;
  destruct Hspec as
    (sent & Hprefix & Hall & Hexec & Hups & new & Hst & Htable & Hfail & Hok).

(** The loop attempts a prefix of its list, in the order of the list: one
    row is written per attempt, and every statement sent belongs to an
    attempted script and passes the guard. *)
Lemma migrate_loop_attempts to_apply w :
  ∃ tried,
    tried `prefix_of` to_apply
    ∧ (upserts (events_of (migrate_loop to_apply w))).*1
      = (λ m, (version m, name m)) <$> tried
    ∧ ∀ script sql,
        (script, sql) ∈ executed (events_of (migrate_loop to_apply w)) →
        ∃ m, m ∈ tried ∧ script = filepath m ∧ sql ∈ statements_of m
             ∧ is_executed sql = true.
Proof.
  revert w. induction to_apply as [|m rest IH]; intros w.
  { exists []. split; [done|]. split; [done|]. intros ?? H. inversion H. }
  loop_step m w Hspec b w1 e1.
  assert (Hsent : ∀ script sql, (script, sql) ∈ executed e1 →
            script = filepath m ∧ sql ∈ statements_of m ∧ is_executed sql = true).
  { intros script sql. rewrite Hexec. intros (x & [= -> ->] & Hx)%list_elem_of_fmap.
    split; [done|]. eapply elem_of_prefix in Hx; [|exact Hprefix].
    apply list_elem_of_filter in Hx as [? ?]. done. }
  destruct b.
  - destruct (IH w1) as (tried & Hp & Hu & He).
    destruct (migrate_loop rest w1) as [[u w2] e2].
    unfold events_of in *. simpl in *.
    exists (m :: tried). split; [by apply prefix_cons|].
    rewrite upserts_app, executed_app, upserts_cons, executed_cons, Hups.
    split; [by rewrite fmap_app, Hu|].
    intros script sql [H|H]%elem_of_app.
    + exists m. split; [left|by apply Hsent].
    + destruct (He _ _ H) as (m' & ? & ?). exists m'. split; [by right|done].
  - unfold events_of. simpl. exists [m]. split; [apply prefix_cons, prefix_nil|].
    rewrite upserts_app, executed_app, Hups. simpl. split; [done|].
    rewrite app_nil_r. intros script sql H. exists m. split; [left|by apply Hsent].
Qed.

(** Each row that the loop writes has status [applied] or [failed], and a
    row of the table afterwards is an untouched one or has such a status. *)
Lemma migrate_loop_statuses to_apply w :
  Forall (λ u, u.2 = applied ∨ u.2 = failed)
         (upserts (events_of (migrate_loop to_apply w)))
  ∧ ∀ v r, migrations (world_of (migrate_loop to_apply w)) !! v = Some r →
           migrations w !! v = Some r
           ∨ row_status r = applied ∨ row_status r = failed.
Proof.
  revert w. induction to_apply as [|m rest IH]; intros w.
  { split; [constructor|]. intros v r H. by left. }
  loop_step m w Hspec b w1 e1.
  assert (Hnew : row_status new = applied ∨ row_status new = failed).
  { rewrite Hst. destruct b; auto. }
  assert (Hw1 : ∀ v r, migrations w1 !! v = Some r →
            migrations w !! v = Some r
            ∨ row_status r = applied ∨ row_status r = failed).
  { intros v r. rewrite Htable, lookup_insert.
    case_decide; [intros [= <-]; by right | by left]. }
  destruct b.
  - destruct (IH w1) as [Hu Hw].
    destruct (migrate_loop rest w1) as [[u w2] e2].
    unfold events_of, world_of in *. simpl in *.
    rewrite upserts_app, upserts_cons, Hups. split.
    + apply Forall_app. split; [|done]. apply Forall_singleton. by left.
    + intros v r H. destruct (Hw _ _ H) as [H1|H1]; [by apply Hw1 | by right].
  - unfold events_of, world_of. simpl. rewrite upserts_app, Hups. split.
    + apply Forall_app. split; [|constructor]. apply Forall_singleton. by right.
    + done.
Qed.

(** When the script at position [k] fails, the rows written are those of
    the scripts before it, as applied, and its own, as failed; the statements
    sent belong to these scripts; and the table is left with a failed row at
    its version. *)
Lemma migrate_loop_fails_at to_apply w k :
  fails_at to_apply w k →
  ∃ m, to_apply !! k = Some m
    ∧ upserts (events_of (migrate_loop to_apply w))
      = ((λ m', (version m', name m', applied)) <$> take k to_apply)
        ++ [(version m, name m, failed)]
    ∧ (∀ script sql,
         (script, sql) ∈ executed (events_of (migrate_loop to_apply w)) →
         script ∈ filepath <$> take (S k) to_apply)
    ∧ (∃ r, migrations (world_of (migrate_loop to_apply w)) !! version m = Some r
            ∧ row_status r = failed).
Proof.
  induction 1 as [m rest w Hres|m rest w k Hres Hlater IH].
  - exists m. split; [done|].
    loop_step m w Hspec b w1 e1. simpl in Hres. subst b.
    unfold events_of, world_of. simpl.
    rewrite upserts_app, executed_app, Hups, app_nil_r. simpl.
    split; [done|]. split.
    + intros script sql. rewrite app_nil_r, Hexec.
      intros (x & [= -> ->] & Hx)%list_elem_of_fmap. left.
    + exists new. by rewrite Htable, lookup_insert_eq.
  - destruct IH as (mk & Hk & Hu & He & Hr). exists mk. split; [done|].
    loop_step m w Hspec b w1 e1. simpl in Hres, Hlater, Hu, He, Hr. subst b.
    destruct (migrate_loop rest w1) as [[u w2] e2].
    unfold events_of, world_of in *. simpl in *.
    rewrite upserts_app, executed_app, upserts_cons, executed_cons, Hups, Hu.
    split; [done|]. split; [|done].
    intros script sql [H|H]%elem_of_app.
    + rewrite Hexec in H. apply list_elem_of_fmap in H as (x & [= -> ->] & Hx).
      left.
    + right. by eapply He.
Qed.

(** When the loop records no failure, every version that was applied before
    and every version of the list is applied afterwards. *)
Lemma migrate_loop_all_applied to_apply w :
  (∀ v n, (v, n, failed) ∉ upserts (events_of (migrate_loop to_apply w))) →
  ∀ v, ((∃ r, migrations w !! v = Some r ∧ row_status r = applied)
        ∨ v ∈ version <$> to_apply) →
       ∃ r, migrations (world_of (migrate_loop to_apply w)) !! v = Some r
            ∧ row_status r = applied.
Proof.
  revert w. induction to_apply as [|m rest IH]; intros w.
  { intros _ v [H|H]; [done | inversion H]. }
  loop_step m w Hspec b w1 e1. destruct b.
  - specialize (IH w1).
    destruct (migrate_loop rest w1) as [[u w2] e2].
    unfold events_of, world_of in *. simpl in *.
    rewrite upserts_app, upserts_cons. intros Hno v Hv. apply IH.
    + intros v' n' Hin. apply (Hno v' n'). apply elem_of_app. by right.
    + rewrite Htable. destruct (decide (version m = v)) as [<-|Hne].
      * left. exists new. by rewrite lookup_insert_eq.
      * rewrite lookup_insert_ne by done.
        destruct Hv as [Hv|Hv]; [by left|right].
        apply elem_of_cons in Hv as [->|Hv]; [done|exact Hv].
  - unfold events_of. simpl. rewrite upserts_app, Hups. intros Hno.
    exfalso. apply (Hno (version m) (name m)). apply elem_of_app. left. left.
Qed.

(** ** The run *)

Lemma elem_of_applied_versions (t : gmap string row) v :
  v ∈ dom (filter (λ kv, row_status kv.2 = applied) t)
  ↔ ∃ r, t !! v = Some r ∧ row_status r = applied.
Proof.
  rewrite elem_of_dom. unfold is_Some.
  by setoid_rewrite map_lookup_filter_Some.
Qed.

Lemma elem_of_to_apply m (w : World Env) :
  m ∈ to_apply_of w ↔
  m ∈ get_pending_migrations dir (listdir fs)
  ∧ ¬ ∃ r, migrations w !! version m = Some r ∧ row_status r = applied.
Proof.
  unfold select_to_apply. rewrite list_elem_of_filter, elem_of_applied_versions.
  tauto.
Qed.

(** What a run with a connection leaves to observe comes from its loop. *)
Lemma migrate_observations (w : World Env) :
  let r := migrate_loop (to_apply_of w) w in
  let out := migrate (Some w) in
  upserts (trace out) = upserts (events_of r)
  ∧ executed (trace out) = executed (events_of r)
  ∧ final_world out = Some (world_of r)
  ∧ exit_status out = 0%Z
  ∧ last (trace out)
    = Some (Print (MsgStatus (select_status (migrations (world_of r))))).
Proof.
  unfold migrate, with_connection. rewrite migrate_body_unfold. simpl.
  destruct (to_apply_of w) as [|m ms]; [done|].
  remember (m :: ms) as to_apply. clear Heqto_apply.
  destruct (migrate_loop to_apply w) as [[u w'] evs].
  unfold events_of, world_of. simpl.
  rewrite upserts_app, executed_app. simpl. rewrite !app_nil_r.
  repeat split.
  by rewrite app_comm_cons, last_app_cons.
Qed.

Lemma elem_of_select_status (t : gmap string row) line :
  line ∈ select_status t ↔
  ∃ v r, t !! v = Some r
         ∧ line = StatusLine v (row_name r) (status_icon (row_status r))
                             (row_status r) (applied_at r).
Proof.
  unfold select_status. rewrite list_elem_of_fmap. split.
  - intros ([v r] & -> & H). rewrite merge_sort_Permutation in H.
    apply elem_of_map_to_list in H. by exists v, r.
  - intros (v & r & H & ->). exists (v, r). split; [done|].
    rewrite merge_sort_Permutation. by apply elem_of_map_to_list.
Qed.

(** C3: a discovered script whose version has a row with status [applied]
    is not attempted by a run: none of its statements is sent and no row is
    written for its version, whatever the file now contains and whatever
    checksum the row holds. *)
Theorem C3_applied_script_is_skipped (m : migration) (w : World Env) (r : row) :
  m ∈ get_pending_migrations dir (listdir fs) →
  migrations w !! version m = Some r →
  row_status r = applied →
  (∀ sql, (filepath m, sql) ∉ executed (trace (migrate (Some w))))
  ∧ (∀ n st, (version m, n, st) ∉ upserts (trace (migrate (Some w))))
  ∧ m ∉ to_apply_of w.
Proof.
  intros Hm Hr Hst.
  assert (Hskip : ∀ m', m' ∈ to_apply_of w → version m' ≠ version m).
  { intros m' [_ Hno]%elem_of_to_apply Hv. apply Hno. exists r. by rewrite Hv. }
  destruct (migrate_observations w) as (Hu & He & _).
  destruct (migrate_loop_attempts (to_apply_of w) w) as (tried & Hp & Hups & Hex).
  split; [|split].
  - intros sql. rewrite He. intros (m' & Hin & Hpath & _)%Hex.
    eapply elem_of_prefix in Hin; [|exact Hp].
    pose proof Hin as [Hm' _]%elem_of_to_apply.
    apply elem_of_get_pending_migrations in Hm as (f & _ & _ & ->).
    apply elem_of_get_pending_migrations in Hm' as (f' & _ & _ & ->).
    apply path_join_inj in Hpath as ->. by eapply Hskip.
  - intros n st. rewrite Hu. intros Hin.
    assert (Hin' : (version m, n) ∈ (upserts (events_of
                      (migrate_loop (to_apply_of w) w))).*1).
    { apply list_elem_of_fmap. by exists (version m, n, st). }
    rewrite Hups in Hin'. apply list_elem_of_fmap in Hin' as (m' & [= Hv _] & Hin').
    eapply elem_of_prefix in Hin'; [|exact Hp]. by eapply Hskip.
  - intros Hin. by eapply Hskip.
Qed.

(** C4: when the script at position [k] of the apply set fails, the rows
    written in the run are those of the scripts before it and its own, the
    statements sent belong to these scripts, so that none of the later
    scripts is attempted; the table is left with status [failed] at its
    version; and the run still ends, with exit status 0, on the status
    listing, which shows that row. *)
Theorem C4_halt_on_failure (w : World Env) (k : nat) :
  fails_at (to_apply_of w) w k →
  ∃ m w',
    to_apply_of w !! k = Some m
    ∧ upserts (trace (migrate (Some w)))
      = ((λ m', (version m', name m', applied)) <$> take k (to_apply_of w))
        ++ [(version m, name m, failed)]
    ∧ (∀ script sql, (script, sql) ∈ executed (trace (migrate (Some w))) →
                     script ∈ filepath <$> take (S k) (to_apply_of w))
    ∧ final_world (migrate (Some w)) = Some w'
    ∧ (∃ r, migrations w' !! version m = Some r ∧ row_status r = failed
            ∧ StatusLine (version m) (row_name r) Cross_mark failed (applied_at r)
              ∈ select_status (migrations w'))
    ∧ exit_status (migrate (Some w)) = 0%Z
    ∧ last (trace (migrate (Some w)))
      = Some (Print (MsgStatus (select_status (migrations w')))).
Proof.
  intros Hk.
  destruct (migrate_observations w) as (Hu & He & Hw & Hx & Hl).
  destruct (migrate_loop_fails_at _ _ _ Hk) as (m & Hm & Hups & Hex & r & Hr & Hst).
  exists m, (world_of (migrate_loop (to_apply_of w) w)).
  split; [done|]. split; [by rewrite Hu|]. split; [by rewrite He|].
  split; [done|]. split; [|done].
  exists r. split; [done|]. split; [done|].
  apply elem_of_select_status. exists (version m), r. by rewrite Hst.
Qed.

(** C6: after a run that recorded no failure, a second run on the same
    directory finds nothing to apply: it sends no statement, writes no row,
    and leaves the tracking table as the first run left it. *)
Theorem C6_second_run_applies_nothing (w w1 : World Env) (later : Env) :
  final_world (migrate (Some w)) = Some w1 →
  (∀ v n, (v, n, failed) ∉ upserts (trace (migrate (Some w)))) →
  let out2 := migrate (Some (MkWorld later (migrations w1))) in
  trace out2 = [Print MsgBanner; Create_table; Commit; Print MsgNoPending;
                Print (MsgStatus (select_status (migrations w1)))]
  ∧ executed (trace out2) = []
  ∧ upserts (trace out2) = []
  ∧ ∃ w2, final_world out2 = Some w2 ∧ migrations w2 = migrations w1.
Proof.
  intros Hw1 Hno.
  destruct (migrate_observations w) as (Hu & _ & Hw & _).
  rewrite Hw in Hw1. injection Hw1 as <-. rewrite Hu in Hno.
  pose proof (migrate_loop_all_applied _ _ Hno) as Hall.
  set (w1 := world_of (migrate_loop (to_apply_of w) w)) in *.
  assert (Hnil : to_apply_of (MkWorld later (migrations w1)) = []).
  { destruct (to_apply_of (MkWorld later (migrations w1))) as [|m ms] eqn:Hsel;
      [done|exfalso].
    assert (Hm : m ∈ to_apply_of (MkWorld later (migrations w1)))
      by (rewrite Hsel; left).
    apply elem_of_to_apply in Hm as [Hm Hnot]. apply Hnot. simpl. apply Hall.
    destruct (decide (m ∈ to_apply_of w)) as [Hin|Hout].
    - right. apply list_elem_of_fmap. by exists m.
    - left. destruct (migrations w !! version m) as [r|] eqn:Hr.
      + destruct (decide (row_status r = applied)); [by exists r|].
        exfalso. apply Hout, elem_of_to_apply. split; [done|].
        intros (r' & Hr' & ?). congruence.
      + exfalso. apply Hout, elem_of_to_apply. split; [done|].
        intros (r' & Hr' & ?). congruence. }
  unfold migrate, with_connection. rewrite migrate_body_unfold. simpl.
  simpl in Hnil. rewrite Hnil. simpl. split; [done|]. split; [done|].
  split; [done|]. by eexists.
Qed.

(** ** Statements and their errors *)

Lemma tolerated_spec err :
  tolerated err = true ↔
  PyStr.contains "Duplicate" err = true ∨ PyStr.contains "already exists" err = true.
Proof.
  unfold tolerated.
  destruct (PyStr.contains "Duplicate" err), (PyStr.contains "already exists" err);
    simpl; intuition congruence.
Qed.

Lemma is_executed_spec s :
  is_executed s = true ↔
  s ≠ "" ∧ PyStr.startswith "--" s = false ∧ PyStr.startswith "/*" s = false.
Proof.
  unfold is_executed. rewrite !andb_true_iff, !negb_true_iff.
  destruct s; simpl; intuition congruence.
Qed.

Lemma run_statements_app script before after w :
  run_statements script (before ++ after) w =
  let '(r, w1, e1) := run_statements script before w in
  match r with
  | Some err => (Some err, w1, e1)
  | None =>
      let '(r2, w2, e2) := run_statements script after w1 in (r2, w2, e1 ++ e2)
  end.
Proof.
  revert w. induction before as [|s before IH]; intros w.
  { simpl. by destruct (run_statements script after w) as [[r2 w2] e2]. }
  rewrite <- app_comm_cons, !run_statements_cons.
  destruct (is_executed s); [|apply IH].
  destruct (execute s (env w)) as [[msg|] e'].
  - destruct (tolerated msg); [|done]. rewrite IH.
    destruct (run_statements script before _) as [[[err|] w1] e1]; [done|].
    by destruct (run_statements script after w1) as [[r2 w2] e2].
  - rewrite IH.
    destruct (run_statements script before _) as [[[err|] w1] e1]; [done|].
    by destruct (run_statements script after w1) as [[r2 w2] e2].
Qed.

(** C5: when the execution of a statement raises an error, the error is
    swallowed exactly when its text contains [Duplicate] or [already exists],
    and the loop then goes on with the next statement; any other error leaves
    the loop at once, no later statement of the script is sent, and the
    script is recorded as failed. *)
Theorem C5_error_policy (m : migration) (script statement err : string)
    (rest : list string) (w : World Env) (e' : Env) :
  is_executed statement = true →
  execute statement (env w) = (Some err, e') →
  let marked :=
    PyStr.contains "Duplicate" err = true
    ∨ PyStr.contains "already exists" err = true in
  let w' := MkWorld e' (migrations w) in
  (result_of (run_statements script [statement] w) = None ↔ marked)
  ∧ (marked →
     run_statements script (statement :: rest) w =
     let '(r, w2, evs) := run_statements script rest w' in
     (r, w2, Execute script statement :: evs))
  ∧ (¬ marked →
     run_statements script (statement :: rest) w
     = (Some err, w', [Execute script statement]))
  ∧ (¬ marked →
     ∀ before w0 evs0,
       statements_of m = before ++ statement :: rest →
       run_statements (filepath m) before w0 = (None, w, evs0) →
       apply_migration m w0 =
       (false,
        MkWorld e' (<[version m := failed_row w' (version m) (name m)]> (migrations w)),
        Print (MsgApplying (name m)) :: (evs0 ++ [Execute (filepath m) statement])
          ++ [Print (MsgFailed err); Upsert (version m) (name m) failed])).
Proof.
  intros Hguard Hexec marked w'. subst marked w'.
  rewrite <- tolerated_spec.
  assert (Hcons : ∀ sc l, run_statements sc (statement :: l) w =
            if tolerated err
            then let '(r, w2, evs) :=
                   run_statements sc l (MkWorld e' (migrations w)) in
                 (r, w2, Execute sc statement :: evs)
            else (Some err, MkWorld e' (migrations w), [Execute sc statement])).
  { intros sc l. by rewrite run_statements_cons, Hguard, Hexec. }
  split; [|split; [|split]].
  - rewrite Hcons. simpl. by destruct (tolerated err).
  - intros Ht. by rewrite Hcons, Ht.
  - intros Ht%not_true_is_false. by rewrite Hcons, Ht.
  - intros Ht%not_true_is_false before w0 evs0 Hsplit Hbefore.
    rewrite apply_migration_unfold, Hsplit, run_statements_app, Hbefore.
    by rewrite Hcons, Ht.
Qed.

(** The statements that an attempt sends: the text of the script is split
    on the semicolons, each fragment is stripped, the fragments that are then
    empty and those that then begin with [--] or [/*] are passed over, and
    the others are sent in the order of the file: all of them when the script
    succeeds, and otherwise a leading part of them. *)
Lemma apply_migration_statements_sent (m : migration) (w : World Env) :
  let fragments := PyStr.split ";" (read_text fs (filepath m)) in
  let kept :=
    filter (λ s, s ≠ "" ∧ PyStr.startswith "--" s = false
                 ∧ PyStr.startswith "/*" s = false)
           (PyStr.strip <$> fragments) in
  ∃ sent,
    executed (events_of (apply_migration m w))
    = (λ sql, (filepath m, sql)) <$> sent
    ∧ sent `prefix_of` kept
    ∧ (result_of (apply_migration m w) = true → sent = kept).
Proof.
  intros fragments kept.
  assert (Hkept : filter (λ s, is_executed s = true) (statements_of m) = kept).
  { unfold split_statements. rewrite list_filter_filter.
    apply list_filter_iff. intros s. rewrite is_executed_spec.
    destruct s; simpl; intuition congruence. }
  destruct (apply_migration_spec m w) as (sent & Hp & Hall & He & _).
  exists sent. rewrite <- Hkept. done.
Qed.

(** C9 (as amended): [applied_at] holds the time at which the row was
    created or, if later, last recorded as applied.  Recording a success
    sets it to the current time; recording a failure sets it only on a new
    row, and on a row that exists changes the status and nothing else.  The
    rows of the other versions are left as they are. *)
Theorem C9_applied_at (m : migration) (w : World Env) :
  let r := apply_migration m w in
  let w' := world_of r in
  (result_of r = true →
   ∃ new, migrations w' !! version m = Some new
          ∧ row_status new = applied
          ∧ applied_at new = Some (clock (env w')))
  ∧ (result_of r = false →
     match migrations w !! version m with
     | Some old =>
         migrations w' !! version m
         = Some (Row (row_name old) (applied_at old) (applied_by old)
                     (checksum old) (execution_time_ms old) failed)
     | None =>
         ∃ new, migrations w' !! version m = Some new
                ∧ row_status new = failed
                ∧ applied_at new = Some (clock (env w'))
     end)
  ∧ (∀ v, v ≠ version m → migrations w' !! v = migrations w !! v).
Proof.
  intros r w'. subst r w'.
  destruct (apply_migration_spec m w)
    as (sent & _ & _ & _ & _ & new & Hst & Htable & Hfail & Hok).
  rewrite Htable. split; [|split].
  - intros Hr. rewrite Hr in Hst. destruct (Hok Hr) as (sum & ms & ->).
    exists (applied_row (MkWorld (env (world_of (apply_migration m w)))
                                 (migrations w)) (version m) (name m) sum ms).
    rewrite lookup_insert_eq. split; [done|]. split; [done|].
    unfold applied_row. simpl. by destruct (migrations w !! version m).
  - intros Hr. rewrite (Hfail Hr), lookup_insert_eq. unfold failed_row. simpl.
    destruct (migrations w !! version m) as [old|]; [done|].
    eexists. split; [done|]. by split.
  - intros v Hv. by rewrite lookup_insert_ne.
Qed.

(** ** The command line *)

(** C7 (as amended): an invocation whose first argument is neither [status]
    nor [rollback] followed by a version prints the usage line and nothing
    else, does not touch the database, and ends normally, with exit status
    0. *)
Theorem C7_usage (script command : string) (rest : list string)
    (server : option (World Env)) :
  command ≠ "status" →
  (command = "rollback" → rest = []) →
  main (script :: command :: rest) server = Outcome 0 server [Print MsgUsage].
Proof.
  intros Hstatus Hrollback. unfold main.
  rewrite decide_False by done.
  destruct (decide (command = "rollback")) as [Hr|]; [|done].
  by rewrite (Hrollback Hr).
Qed.

(** C10: every row that the runner writes has status [applied] or
    [failed], so that a row of the table after any invocation is a row left
    untouched or has one of these two statuses; the rollback command prints
    its advice, writes nothing and leaves the database as it is. *)
Theorem C10_statuses_written (argv : list string) (server : option (World Env)) :
  let out := main argv server in
  Forall (λ u, u.2 = applied ∨ u.2 = failed) (upserts (trace out))
  ∧ (∀ w w' v r,
       server = Some w → final_world out = Some w' →
       migrations w' !! v = Some r →
       migrations w !! v = Some r
       ∨ row_status r = applied ∨ row_status r = failed)
  ∧ (∀ script v rest,
       argv = script :: "rollback" :: v :: rest →
       out = Outcome 0 server (rollback v)
       ∧ upserts (rollback v) = [] ∧ executed (rollback v) = []).
Proof.
  intros out. subst out.
  assert (Hmigrate :
    Forall (λ u, u.2 = applied ∨ u.2 = failed) (upserts (trace (migrate server)))
    ∧ ∀ w w' v r,
        server = Some w → final_world (migrate server) = Some w' →
        migrations w' !! v = Some r →
        migrations w !! v = Some r
        ∨ row_status r = applied ∨ row_status r = failed).
  { destruct server as [w|]; [|split; [by constructor | by intros ???? [=]]].
    destruct (migrate_observations w) as (Hu & _ & Hw & _).
    destruct (migrate_loop_statuses (to_apply_of w) w) as [Hf Hrow].
    rewrite Hu, Hw. split; [done|].
    intros w0 w' v r [= <-] [= <-]. apply Hrow. }
  split; [|split].
  - destruct argv as [|script [|command rest]]; [apply Hmigrate..|].
    unfold main. case_decide.
    { destruct server; by constructor. }
    case_decide; [|by constructor]. destruct rest; by constructor.
  - destruct argv as [|script [|command rest]]; [apply Hmigrate..|].
    unfold main. case_decide.
    { intros w w' v r ->. simpl. intros [= <-]. by left. }
    intros w w' v r ->.
    assert (Hsame : ∀ evs, final_world (Outcome 0 (Some w) evs) = Some w' →
              migrations w' !! v = Some r → migrations w !! v = Some r
              ∨ row_status r = applied ∨ row_status r = failed).
    { intros evs [= <-]. by left. }
    case_decide; [|apply Hsame]. destruct rest; apply Hsame.
  - intros script v rest ->. unfold main.
    rewrite decide_False by done. by rewrite decide_True by done.
Qed.

(** ** What a run leaves in the table *)

(** The loop leaves alone the rows of the versions that are not in its
    list, and removes no row. *)
Lemma migrate_loop_frame to_apply w :
  (∀ v, v ∉ version <$> to_apply →
        migrations (world_of (migrate_loop to_apply w)) !! v = migrations w !! v)
  ∧ (∀ v, is_Some (migrations w !! v) →
          is_Some (migrations (world_of (migrate_loop to_apply w)) !! v)).
Proof.
  revert w. induction to_apply as [|m rest IH]; intros w; [done|].
  loop_step m w Hspec b w1 e1.
  assert (H1 : ∀ v, v ≠ version m → migrations w1 !! v = migrations w !! v).
  { intros v Hv. by rewrite Htable, lookup_insert_ne. }
  assert (H2 : ∀ v, is_Some (migrations w !! v) → is_Some (migrations w1 !! v)).
  { intros v Hv. rewrite Htable, lookup_insert. case_decide; [by eexists|done]. }
  destruct b.
  - destruct (IH w1) as [Hf Hd].
    destruct (migrate_loop rest w1) as [[u w2] e2].
    unfold world_of in *. simpl in *. split.
    + intros v Hv. rewrite Hf, H1; [done| |].
      * intros ->. apply Hv. left.
      * intros Hin. apply Hv. by right.
    + intros v Hv. by apply Hd, H2.
  - unfold world_of. simpl. split; [|done].
    intros v Hv. apply H1. intros ->. apply Hv. left.
Qed.

(** The loop either applies every script of its list, or reaches a script
    that fails. *)
Lemma migrate_loop_dichotomy to_apply w :
  upserts (events_of (migrate_loop to_apply w))
  = (λ m, (version m, name m, applied)) <$> to_apply
  ∨ ∃ k, fails_at to_apply w k.
Proof.
  revert w. induction to_apply as [|m rest IH]; intros w; [by left|].
  destruct (result_of (apply_migration m w)) eqn:Hres.
  - destruct (IH (world_of (apply_migration m w))) as [Hrest|[k Hk]].
    + left. revert Hrest Hres. loop_step m w Hspec b w1 e1.
      unfold world_of, result_of. cbn [fst snd].
      intros Hrest ->. destruct (migrate_loop rest w1) as [[u w2] e2].
      unfold events_of in *. cbn [fst snd] in *.
      by rewrite upserts_app, upserts_cons, Hups, Hrest.
    + right. exists (S k). by apply fails_later.
  - right. exists 0. by apply fails_here.
Qed.

(** When the loop reaches a script that fails, its last events are the
    commit of the failed attempt and the notice that it stops. *)
Lemma migrate_loop_fails_at_events to_apply w k :
  fails_at to_apply w k →
  ∃ before, events_of (migrate_loop to_apply w)
            = before ++ [Commit; Print MsgStopping].
Proof.
  induction 1 as [m rest w Hres|m rest w k Hres Hlater [before IH]].
  - loop_step m w Hspec b w1 e1. simpl in Hres. subst b. by exists e1.
  - loop_step m w Hspec b w1 e1. simpl in Hres, Hlater, IH. subst b.
    destruct (migrate_loop rest w1) as [[u w2] e2].
    unfold events_of in *. simpl in *. subst e2.
    exists (e1 ++ Commit :: before). by rewrite <- app_assoc.
Qed.

(** X11: an invocation with a connection never removes a row of the
    tracking table and never changes a row whose status is [applied]. *)
Theorem X11_applied_rows_are_kept (argv : list string) (w w' : World Env) :
  final_world (main argv (Some w)) = Some w' →
  (∀ v, is_Some (migrations w !! v) → is_Some (migrations w' !! v))
  ∧ (∀ v r, migrations w !! v = Some r → row_status r = applied →
            migrations w' !! v = Some r).
Proof.
  assert (Hmigrate : final_world (migrate (Some w)) = Some w' →
    (∀ v, is_Some (migrations w !! v) → is_Some (migrations w' !! v))
    ∧ (∀ v r, migrations w !! v = Some r → row_status r = applied →
              migrations w' !! v = Some r)).
  { destruct (migrate_observations w) as (_ & _ & Hw & _). rewrite Hw.
    intros [= <-].
    destruct (migrate_loop_frame (to_apply_of w) w) as [Hf Hd].
    split; [exact Hd|]. intros v r Hr Hst. rewrite Hf; [done|].
    intros (m & -> & [_ Hno]%elem_of_to_apply)%list_elem_of_fmap.
    apply Hno. by exists r. }
  assert (Hsame : ∀ evs, final_world (Outcome 0 (Some w) evs) = Some w' →
    (∀ v, is_Some (migrations w !! v) → is_Some (migrations w' !! v))
    ∧ (∀ v r, migrations w !! v = Some r → row_status r = applied →
              migrations w' !! v = Some r)).
  { by intros evs [= <-]. }
  destruct argv as [|script [|command rest]]; [exact Hmigrate..|].
  unfold main. case_decide; [apply Hsame|].
  case_decide; [|apply Hsame]. destruct rest; apply Hsame.
Qed.

(** X12: a run that ends without recording a failure has written one
    [applied] row for each script that it selected, in the order of the
    selection, and nothing else; a run that records a failure has written
    [applied] rows for the selected scripts before the failing one and then
    that single [failed] row, as its last write. *)
Theorem X12_rows_written_by_a_run (w w' : World Env) :
  final_world (migrate (Some w)) = Some w' →
  ((∀ v n, (v, n, failed) ∉ upserts (trace (migrate (Some w)))) →
   upserts (trace (migrate (Some w)))
   = (λ m, (version m, name m, applied)) <$> to_apply_of w)
  ∧ (∀ v n, (v, n, failed) ∈ upserts (trace (migrate (Some w))) →
     ∃ k m, to_apply_of w !! k = Some m
            ∧ v = version m ∧ n = name m
            ∧ upserts (trace (migrate (Some w)))
              = ((λ m', (version m', name m', applied)) <$> take k (to_apply_of w))
                ++ [(v, n, failed)]).
Proof.
  intros _. destruct (migrate_observations w) as (Hu & _). rewrite Hu.
  assert (Hnot : ∀ v n (l : list migration),
            (v, n, failed) ∉ (λ m, (version m, name m, applied)) <$> l).
  { intros v n l (m & [=] & _)%list_elem_of_fmap. }
  destruct (migrate_loop_dichotomy (to_apply_of w) w) as [Hall|[k Hk]].
  - split; [done|]. intros v n Hin. rewrite Hall in Hin. by apply Hnot in Hin.
  - destruct (migrate_loop_fails_at _ _ _ Hk) as (m & Hm & Hups & _).
    rewrite Hups. split.
    + intros Hno. exfalso. apply (Hno (version m) (name m)).
      apply elem_of_app. right. left.
    + intros v n [Hin|Hin]%elem_of_app; [by apply Hnot in Hin|].
      apply list_elem_of_singleton in Hin. injection Hin as -> ->.
      by exists k, m.
Qed.

(** X13: after a run that recorded no failure, every discovered script has
    a row with status [applied] at its version. *)
Theorem X13_run_without_failure_is_complete (w w' : World Env) (m : migration) :
  final_world (migrate (Some w)) = Some w' →
  (∀ v n, (v, n, failed) ∉ upserts (trace (migrate (Some w)))) →
  m ∈ get_pending_migrations dir (listdir fs) →
  ∃ r, migrations w' !! version m = Some r ∧ row_status r = applied.
Proof.
  intros Hw' Hno Hm.
  destruct (migrate_observations w) as (Hu & _ & Hw & _).
  rewrite Hw in Hw'. injection Hw' as <-. rewrite Hu in Hno.
  apply (migrate_loop_all_applied _ _ Hno).
  destruct (migrations w !! version m) as [r|] eqn:Hr.
  - destruct (decide (row_status r = applied)); [left; by exists r|].
    right. apply list_elem_of_fmap. exists m. split; [done|].
    apply elem_of_to_apply. split; [done|]. intros (r' & Hr' & ?). congruence.
  - right. apply list_elem_of_fmap. exists m. split; [done|].
    apply elem_of_to_apply. split; [done|]. intros (r' & Hr' & ?). congruence.
Qed.

(** X14: when a script fails, the run prints that it stops and then,
    all the same, that the migration is complete, before the status
    listing. *)
Theorem X14_messages_after_failure (w : World Env) (k : nat) :
  fails_at (to_apply_of w) w k →
  ∃ before w',
    final_world (migrate (Some w)) = Some w'
    ∧ trace (migrate (Some w))
      = before ++ [Commit; Print MsgStopping; Print MsgComplete;
                   Print (MsgStatus (select_status (migrations w')))].
Proof.
  intros Hk. destruct (migrate_loop_fails_at_events _ _ _ Hk) as [before He].
  assert (Hne : to_apply_of w ≠ []) by (intros Hnil; rewrite Hnil in Hk; inversion Hk).
  unfold migrate, with_connection. rewrite migrate_body_unfold. simpl.
  destruct (to_apply_of w) as [|m ms]; [done|].
  remember (m :: ms) as to_apply. clear Heqto_apply Hne.
  destruct (migrate_loop to_apply w) as [[u w1] evs].
  unfold events_of in He. simpl in He. subst evs. simpl.
  exists (Print MsgBanner :: Create_table :: Commit
            :: Print (MsgFound (length to_apply)) :: before), w1.
  split; [done|]. simpl. by rewrite <- app_assoc.
Qed.

(** X15: when every discovered script already has a row with status
    [applied], and so when the directory holds no script at all, a run sends
    the statement that creates the tracking table when it is absent and no
    statement of a script, writes no row and leaves the rows of the table as
    they are; it reports that nothing is pending and lists the table. *)
Theorem X15_nothing_pending (w : World Env) :
  (∀ m, m ∈ get_pending_migrations dir (listdir fs) →
        ∃ r, migrations w !! version m = Some r ∧ row_status r = applied) →
  trace (migrate (Some w))
  = [Print MsgBanner; Create_table; Commit; Print MsgNoPending;
     Print (MsgStatus (select_status (migrations w)))]
  ∧ executed (trace (migrate (Some w))) = []
  ∧ upserts (trace (migrate (Some w))) = []
  ∧ ∃ w', final_world (migrate (Some w)) = Some w'
          ∧ migrations w' = migrations w.
Proof.
  intros Hall.
  assert (Hnil : to_apply_of w = []).
  { destruct (to_apply_of w) as [|m ms] eqn:Hsel; [done|exfalso].
    assert (Hm : m ∈ to_apply_of w) by (rewrite Hsel; left).
    apply elem_of_to_apply in Hm as [Hm Hnot]. by apply Hnot, Hall. }
  unfold migrate, with_connection. rewrite migrate_body_unfold. simpl.
  rewrite Hnil. simpl. split; [done|]. split; [done|]. split; [done|].
  by eexists.
Qed.

(** ** The row of an attempt *)

(** The table after an attempt: the row of the version is the one that the
    upsert of the outcome leaves, computed at the time of the upsert. *)
Lemma apply_migration_row m w :
  let r := apply_migration m w in
  let w1 := MkWorld (env (world_of r)) (migrations w) in
  migrations (world_of r)
  = <[version m :=
        if result_of r
        then applied_row w1 (version m) (name m) (md5 (read_bytes fs (filepath m)))
                         (elapsed_ms (env w) (env (world_of r)))
        else failed_row w1 (version m) (name m)]> (migrations w).
Proof.
  intros r w1. subst r w1. rewrite apply_migration_unfold.
  pose proof (run_statements_migrations (filepath m) (statements_of m) w) as Hm.
  destruct (run_statements (filepath m) (statements_of m) w) as [[[err|] w1] evs];
    unfold world_of, result_of in *; simpl in *; rewrite <- Hm.
  - unfold failed_row. simpl. done.
  - unfold applied_row. simpl. done.
Qed.

(** X9: a success is recorded with the current time of the server and
    with the time taken, in milliseconds, between the two readings of the
    clock around the statements.  On a version without a row, the new row
    holds the name of the script, the checksum of the bytes of its file and
    the database user; on a version that has a row, the name, the checksum
    and the user of that row are kept as they are. *)
Theorem X9_row_of_a_success (m : migration) (w : World Env) :
  result_of (apply_migration m w) = true →
  let w' := world_of (apply_migration m w) in
  let t := Some (clock (env w')) in
  let ms := Some (elapsed_ms (env w) (env w')) in
  migrations w' !! version m
  = Some match migrations w !! version m with
         | None =>
             Row (name m) t (Some db_user)
                 (Some (md5 (read_bytes fs (filepath m)))) ms applied
         | Some old =>
             Row (row_name old) t (applied_by old) (checksum old) ms applied
         end.
Proof.
  intros Hres w' t ms. subst w' t ms.
  rewrite apply_migration_row, Hres, lookup_insert_eq.
  unfold applied_row. simpl. by destruct (migrations w !! version m).
Qed.

(** X10: a script that fails on a version without a row and succeeds in a
    later attempt ends with status [applied] but with no checksum and no
    user: the failure created the row without them, and the success does not
    fill them in. *)
Theorem X10_success_after_failure_has_no_checksum (m : migration)
    (w w2 : World Env) :
  migrations w !! version m = None →
  result_of (apply_migration m w) = false →
  migrations w2 !! version m
  = migrations (world_of (apply_migration m w)) !! version m →
  result_of (apply_migration m w2) = true →
  ∃ r, migrations (world_of (apply_migration m w2)) !! version m = Some r
       ∧ row_status r = applied
       ∧ row_name r = name m
       ∧ checksum r = None
       ∧ applied_by r = None.
Proof.
  intros Hnone Hfail Hsame Hok.
  rewrite apply_migration_row, Hfail, lookup_insert_eq in Hsame.
  unfold failed_row in Hsame. simpl in Hsame. rewrite Hnone in Hsame.
  rewrite apply_migration_row, Hok, lookup_insert_eq.
  unfold applied_row. simpl. rewrite Hsame. by eexists.
Qed.

(** ** Writes and commits *)

Local Abbreviation only_prints l :=
  (Forall (λ e : event, ∃ msg, e = Print msg) l).

(** After each write of a list of events comes a commit, with nothing but
    prints in between. *)
Local Abbreviation writes_committed l :=
  (∀ a v n st b,
     l = a ++ Upsert v n st :: b →
     ∃ between rest, b = between ++ Commit :: rest ∧ only_prints between).

Lemma writes_committed_app l1 l2 :
  upserts l1 = [] → writes_committed l2 → writes_committed (l1 ++ l2).
Proof.
  intros Hno H2. induction l1 as [|e l1 IH]; [exact H2|].
  intros [|x a] v n st b Heq; simpl in Heq; injection Heq as -> Heq.
  - by rewrite upserts_cons in Hno.
  - eapply IH; [|exact Heq]. rewrite upserts_cons in Hno. by destruct x.
Qed.

Lemma writes_committed_upsert v0 n0 st0 post rest :
  only_prints post → writes_committed rest →
  writes_committed (Upsert v0 n0 st0 :: post ++ Commit :: rest).
Proof.
  intros Hp Hr [|x a] v n st b Heq; simpl in Heq.
  - injection Heq as _ _ _ <-. by exists post, rest.
  - injection Heq as _ Heq. revert a v n st b Heq. apply writes_committed_app.
    + clear -Hp. induction Hp as [|e post [msg ->] _ IH]; [done|].
      by rewrite upserts_cons.
    + by apply (writes_committed_app [Commit]).
Qed.

Lemma writes_committed_no_upsert l :
  upserts l = [] → writes_committed l.
Proof.
  intros Hno. rewrite <- (app_nil_r l). apply writes_committed_app; [done|].
  by intros [|??] ???? [=].
Qed.

Lemma migrate_loop_writes_committed to_apply w :
  writes_committed (events_of (migrate_loop to_apply w)).
Proof.
  revert w. induction to_apply as [|m rest IH]; intros w.
  { by intros [|??] ???? [=]. }
  rewrite migrate_loop_cons, apply_migration_unfold.
  destruct (run_statements_events (filepath m) (statements_of m) w)
    as (sent & He & _).
  destruct (run_statements (filepath m) (statements_of m) w) as [[[err|] w1] evs];
    unfold events_of in He; simpl in He; subst evs.
  - unfold events_of. cbn [fst snd].
    assert (Hshape : ∀ (x p u : event) l c,
              (x :: l ++ [p; u]) ++ c = (x :: l ++ [p]) ++ u :: [] ++ c)
      by (intros; simpl; by rewrite <- !app_assoc).
    rewrite Hshape. clear Hshape.
    apply writes_committed_app.
    { by rewrite upserts_cons, upserts_app, upserts_Execute. }
    apply (writes_committed_upsert _ _ _ []); [constructor|].
    by apply writes_committed_no_upsert.
  - cbv beta iota zeta.
    match goal with
    | |- context [migrate_loop rest ?w0] =>
        specialize (IH w0); destruct (migrate_loop rest w0) as [[u w2] e2]
    end.
    unfold events_of in *. cbn [fst snd] in *.
    assert (Hshape : ∀ (x p u : event) l c,
              (x :: l ++ [u; p]) ++ c = (x :: l) ++ u :: [p] ++ c)
      by (intros; simpl; by rewrite <- !app_assoc).
    rewrite Hshape. clear Hshape. apply writes_committed_app.
    { by rewrite upserts_cons, upserts_Execute. }
    apply (writes_committed_upsert _ _ _ [_]); [|done].
    apply Forall_singleton. by eexists.
Qed.

(** X4: in a run, every write to the tracking table is followed by a commit
    before anything else than a message happens: no statement of a later
    script is sent, and the run does not end, on an uncommitted row. *)
Theorem X4_every_write_is_committed (w : World Env) (a b : list event)
    (v n : string) (st : status) :
  trace (migrate (Some w)) = a ++ Upsert v n st :: b →
  ∃ between rest,
    b = between ++ Commit :: rest
    ∧ Forall (λ e, ∃ msg, e = Print msg) between.
Proof.
  unfold migrate, with_connection. rewrite migrate_body_unfold. simpl.
  destruct (to_apply_of w) as [|m ms].
  { simpl. revert a v n st b. by apply writes_committed_no_upsert. }
  remember (m :: ms) as to_apply. clear Heqto_apply.
  pose proof (migrate_loop_writes_committed to_apply w) as Hloop.
  destruct (migrate_loop to_apply w) as [[u w'] evs].
  unfold events_of in Hloop. simpl in *. revert a v n st b.
  apply (writes_committed_app [_; _; _; _]); [done|].
  intros a v n st b Heq.
  apply app_eq_app in Heq as [l [[Hevs Hb]|[Ha Hb]]].
  - destruct l as [|x l]; simpl in Hb; [discriminate|].
    injection Hb as <- ->.
    destruct (Hloop a v n st l Hevs) as (between & rest & -> & Hp).
    exists between, (rest ++ [Print MsgComplete;
                               Print (MsgStatus (select_status (migrations w')))]).
    split; [by rewrite <- app_assoc|done].
  - destruct l as [|x [|y [|z l]]]; simpl in Hb; discriminate.
Qed.

(** ** Exit status and the status command *)

(** X2: the status command, whatever follows it on the command line, sends
    the statement that creates the tracking table when it is absent and then
    only prints: it executes no statement of a script, writes no row and
    leaves the rows of the table as they are.  Given right after a run, on
    the table that the run left, it prints the very listing on which that run
    ended. *)
Theorem X2_status_after_a_run (script : string) (rest : list string)
    (w w' : World Env) (later : Env) :
  final_world (migrate (Some w)) = Some w' →
  let out :=
    main (script :: "status" :: rest) (Some (MkWorld later (migrations w'))) in
  executed (trace out) = []
  ∧ upserts (trace out) = []
  ∧ (∃ w2, final_world out = Some w2 ∧ migrations w2 = migrations w')
  ∧ ∃ listing,
      trace out = [Create_table; listing]
      ∧ last (trace (migrate (Some w))) = Some listing.
Proof.
  intros Hw' out. subst out.
  destruct (migrate_observations w) as (_ & _ & Hw & _ & Hlast).
  rewrite Hw in Hw'. injection Hw' as <-.
  unfold main. rewrite decide_True by done. simpl.
  split; [done|]. split; [done|]. split; [by eexists|].
  eexists. split; [done|]. exact Hlast.
Qed.

(** X3: when the server cannot be reached, a run without arguments and the
    status command print that the connection failed and end with exit status
    1, having sent no statement and written no row.  The usage line and the
    rollback advice never use the connection: they print the same, leave the
    server alone and end with exit status 0 whether or not it can be
    reached. *)
Theorem X3_connection_failure (argv : list string) :
  ((argv !! 1 = None ∨ argv !! 1 = Some "status") →
   exit_status (main argv None) = 1%Z
   ∧ final_world (main argv None) = None
   ∧ last (trace (main argv None)) = Some (Print MsgConnectionFailed)
   ∧ (Create_table ∉ trace (main argv None))
   ∧ executed (trace (main argv None)) = []
   ∧ upserts (trace (main argv None)) = [])
  ∧ (∀ command server,
       argv !! 1 = Some command → command ≠ "status" →
       exit_status (main argv server) = 0%Z
       ∧ final_world (main argv server) = server
       ∧ trace (main argv server) = trace (main argv None)).
Proof.
  split.
  - intros Hneeds.
    assert (Hm : main argv None = migrate None
                 ∨ main argv None = Outcome 1 None [Print MsgConnectionFailed]).
    { destruct argv as [|script [|command rest]]; [by left..|].
      destruct Hneeds as [[=]|[= ->]]. right. unfold main.
      by rewrite decide_True by done. }
    destruct Hm as [-> | ->]; simpl; repeat split; try done.
    + intros [[=]|[[=]|[]%elem_of_nil]%elem_of_cons]%elem_of_cons.
    + intros [[=]|[]%elem_of_nil]%elem_of_cons.
  - intros command server Hc Hs.
    destruct argv as [|script [|command' rest]]; [discriminate..|].
    injection Hc as ->. unfold main.
    destruct (decide (command = "status")); [done|].
    destruct (decide (command = "rollback")); [destruct rest|]; done.
Qed.

(** ** The status listing and the statements of a run *)

(** X1: the status listing has one line for each row of the tracking
    table, in strictly ascending order of the versions; a line shows the
    name, the status and the time of its row, with a check mark for
    [applied], a cross for [failed] and an hourglass for the other
    statuses. *)
Theorem X1_status_listing (t : gmap string row) :
  length (select_status t) = size t
  ∧ StronglySorted str_lt (line_version <$> select_status t)
  ∧ ∀ line, line ∈ select_status t ↔
      ∃ v r, t !! v = Some r
             ∧ line = StatusLine v (row_name r)
                        match row_status r with
                        | applied => Check_mark
                        | failed => Cross_mark
                        | pending | rolled_back => Hourglass
                        end
                        (row_status r) (applied_at r).
Proof.
  set (R := λ a b : string * row, String.le a.1 b.1).
  assert (Htotal : Total R) by (intros a b; apply (total String.le)).
  assert (Htrans : Transitive R)
    by (intros a b c; apply (transitivity (R:=String.le))).
  split; [|split].
  - unfold select_status. rewrite length_fmap, merge_sort_Permutation.
    apply length_map_to_list.
  - unfold select_status. rewrite <- list_fmap_compose.
    apply StronglySorted_strict.
    + change (NoDup ((merge_sort R (map_to_list t)).*1)).
      rewrite merge_sort_Permutation. apply NoDup_fst_map_to_list.
    + apply (StronglySorted_fmap _ R); [done|].
      by apply StronglySorted_merge_sort.
  - intros line. rewrite elem_of_select_status.
    split; intros (v & r & Hr & ->); exists v, r; (split; [done|]);
      by destruct (row_status r).
Qed.

(** X8: a statement that a run sends comes from a discovered script whose
    version had no row with status [applied] when the run began; it is one of
    the statements of the text of that script, and does not begin with [--]
    or [/*].  Files that are not discovered and scripts that are applied are
    never executed. *)
Theorem X8_statements_sent_in_a_run (w : World Env) (script sql : string) :
  (script, sql) ∈ executed (trace (migrate (Some w))) →
  ∃ f, f ∈ listdir fs
       ∧ is_migration_file f = true
       ∧ script = path_join dir f
       ∧ (¬ ∃ r, migrations w !! file_version f = Some r ∧ row_status r = applied)
       ∧ sql ∈ split_statements (read_text fs script)
       ∧ PyStr.startswith "--" sql = false
       ∧ PyStr.startswith "/*" sql = false.
Proof.
  destruct (migrate_observations w) as (_ & He & _). rewrite He.
  destruct (migrate_loop_attempts (to_apply_of w) w) as (tried & Hp & _ & Hex).
  intros (m & Hin & -> & Hsql & Hguard)%Hex.
  eapply elem_of_prefix in Hin; [|exact Hp].
  apply elem_of_to_apply in Hin as [Hm Hno].
  apply elem_of_get_pending_migrations in Hm as (f & Hf & Hfile & ->).
  exists f. apply is_executed_spec in Hguard as (_ & H1 & H2). done.
Qed.

(** ** The attempts of a run, script by script *)

Lemma attempted_app a b : attempted (a ++ b) = attempted a ++ attempted b.
Proof. apply omap_app. Qed.

Lemma attempted_Execute script sent : attempted (Execute script <$> sent) = [].
Proof. by induction sent. Qed.

Lemma apply_migration_attempted m w :
  attempted (events_of (apply_migration m w)) = [name m].
Proof.
  rewrite apply_migration_unfold.
  destruct (run_statements_events (filepath m) (statements_of m) w)
    as (sent & He & _).
  destruct (run_statements (filepath m) (statements_of m) w) as [[[err|] w1] evs];
    cbv beta iota zeta; unfold events_of in *; cbn [snd] in *; subst evs;
    change (attempted (Print (MsgApplying (name m)) :: ?l))
      with (name m :: attempted l);
    by rewrite attempted_app, attempted_Execute.
Qed.

(** The events of the loop over the scripts of a list of files: the files
    attempted are a prefix of the list, and for each of them in turn the
    attempt is announced, its statements are sent under its path, and one
    row is written under its version and name. *)
Lemma migrate_loop_blocks (files : list string) w :
  let evs := events_of (migrate_loop (migration_of dir <$> files) w) in
  ∃ attempts : list (string * list string),
    attempts.*1 `prefix_of` files
    ∧ attempted evs = file_name <$> attempts.*1
    ∧ (upserts evs).*1 = (λ f, (file_version f, file_name f)) <$> attempts.*1
    ∧ executed evs
      = flat_map (λ a, (λ sql, (path_join dir a.1, sql)) <$> a.2) attempts.
Proof.
  revert w. induction files as [|f files IH]; intros w.
  { exists []. by repeat split. }
  rewrite fmap_cons. intros evs. subst evs.
  pose proof (apply_migration_attempted (migration_of dir f) w) as Hatt.
  loop_step (migration_of dir f) w Hspec b w1 e1.
  unfold events_of in Hatt. simpl in Hatt, Hexec, Hups.
  destruct b.
  - destruct (IH w1) as (attempts & Hp & Ha & Hu & He).
    destruct (migrate_loop (migration_of dir <$> files) w1) as [[u w2] e2].
    unfold events_of in *. simpl in Ha, Hu, He |- *.
    exists ((f, sent) :: attempts).
    rewrite attempted_app, upserts_app, executed_app, Hatt, Hups, Hexec.
    change (attempted (Commit :: e2)) with (attempted e2).
    rewrite upserts_cons, executed_cons, Ha, He, fmap_app, Hu.
    split; [by apply prefix_cons|]. done.
  - unfold events_of. simpl. exists [(f, sent)].
    rewrite attempted_app, upserts_app, executed_app, Hatt, Hups, Hexec.
    split; [apply prefix_cons, prefix_nil|]. simpl.
    by rewrite !app_nil_r.
Qed.

Lemma migrate_attempted (w : World Env) :
  attempted (trace (migrate (Some w)))
  = attempted (events_of (migrate_loop (to_apply_of w) w)).
Proof.
  unfold migrate, with_connection. rewrite migrate_body_unfold. simpl.
  destruct (to_apply_of w) as [|m ms]; [done|].
  remember (m :: ms) as to_apply. clear Heqto_apply.
  destruct (migrate_loop to_apply w) as [[u w'] evs].
  unfold events_of. simpl.
  change (attempted (Print (MsgFound (length to_apply)) :: ?l)) with (attempted l).
  rewrite attempted_app. simpl. by rewrite app_nil_r.
Qed.

End RunnerProperties.

(** ** The order of the attempts *)

Section ApplyOrder.

Context {Env : Type}.
Variable execute : string → Env → option string * Env.
Variable clock : Env → Z.
Variable elapsed_ms : Env → Env → Z.
Variable md5 : list byte → string.
Variable db_user : string.
Variable dir : string.

Local Abbreviation migrate_on fs := (migrate Env execute clock elapsed_ms md5 db_user dir fs).
Local Abbreviation loop_on fs := (migrate_loop Env execute clock elapsed_ms md5 db_user fs).
Local Abbreviation apply_on fs := (apply_migration Env execute clock elapsed_ms md5 db_user fs).

Lemma apply_migration_read fs fs' m w :
  read_text fs' = read_text fs → read_bytes fs' = read_bytes fs →
  apply_on fs' m w = apply_on fs m w.
Proof. intros H1 H2. rewrite !apply_migration_unfold. by rewrite H1, H2. Qed.

Lemma migrate_loop_read fs fs' to_apply w :
  read_text fs' = read_text fs → read_bytes fs' = read_bytes fs →
  loop_on fs' to_apply w = loop_on fs to_apply w.
Proof.
  intros H1 H2. revert w. induction to_apply as [|m rest IH]; intros w; [done|].
  rewrite !migrate_loop_cons, (apply_migration_read fs fs') by done.
  destruct (apply_on fs m w) as [[[|] w1] e1]; [|done]. by rewrite IH.
Qed.

(** A run does not depend on the order of the directory listing. *)
Lemma migrate_listing_order fs fs' server :
  listdir fs' ≡ₚ listdir fs →
  read_text fs' = read_text fs → read_bytes fs' = read_bytes fs →
  migrate_on fs' server = migrate_on fs server.
Proof.
  intros Hl Hr Hb. destruct server as [w|]; [|done].
  unfold migrate, with_connection. rewrite !migrate_body_unfold.
  unfold get_pending_migrations. rewrite (sorted_listing_order _ _ Hl). simpl.
  destruct (select_to_apply _ _) as [|m ms]; [done|].
  by rewrite (migrate_loop_read fs fs').
Qed.

Lemma filter_fmap {A B} (f : A → B) (P : B → Prop) `{!∀ x, Decision (P x)}
    (l : list A) :
  filter P (f <$> l) = f <$> filter (λ x, P (f x)) l.
Proof.
  induction l as [|x l IH]; [done|]. rewrite fmap_cons, !filter_cons.
  case_decide; by rewrite IH.
Qed.

Lemma fmap_sublist {A B} (f : A → B) (l k : list A) :
  l `sublist_of` k → f <$> l `sublist_of` f <$> k.
Proof. induction 1; simpl; by constructor. Qed.

Lemma file_version_le f g :
  String.length (file_version f) = String.length (file_version g) →
  String.le f g → String.le (file_version f) (file_version g).
Proof.
  intros Hlen Hle.
  destruct (file_version_spec f) as (x & Hf & _).
  destruct (file_version_spec g) as (y & Hg & _).
  rewrite Hf, Hg in Hle. by eapply le_prefix_same_length.
Qed.

(** C1 (as amended): a run attempts the scripts in strictly ascending order
    of their file names, by code points, whatever the order of the directory
    listing: the files attempted form a strictly ascending list, and file by
    file in that order the attempt is announced under the name of the file,
    its statements are sent under its path, and a row is written under its
    version and name.  This is strictly ascending order of the versions when
    the versions of the discovered scripts are pairwise distinct and all of
    the same length. *)
Theorem C1_apply_order (read : string → string) (bytes : string → list byte)
    (listing listing' : list string) (w : World Env) :
  NoDup listing →
  listing' ≡ₚ listing →
  let out := migrate_on (Filesystem listing read bytes) (Some w) in
  let pending := get_pending_migrations dir listing in
  migrate_on (Filesystem listing' read bytes) (Some w) = out
  ∧ (∃ attempts : list (string * list string),
       StronglySorted str_lt attempts.*1
       ∧ attempts.*1 ⊆ listing
       ∧ attempted (trace out) = file_name <$> attempts.*1
       ∧ (upserts (trace out)).*1
         = (λ f, (file_version f, file_name f)) <$> attempts.*1
       ∧ executed (trace out)
         = flat_map (λ a, (λ sql, (path_join dir a.1, sql)) <$> a.2) attempts)
  ∧ (NoDup (version <$> pending) →
     (∀ m m', m ∈ pending → m' ∈ pending →
              String.length (version m) = String.length (version m')) →
     StronglySorted str_lt ((upserts (trace out)).*1.*1)).
Proof.
  intros Hnd Hperm out pending. subst out pending.
  set (fs := Filesystem listing read bytes).
  split; [by apply migrate_listing_order|].
  destruct (migrate_observations execute clock elapsed_ms md5 db_user dir fs w)
    as (Hu & He & _).
  rewrite Hu, He, (migrate_attempted execute clock elapsed_ms md5 db_user dir fs w).
  clear Hu He.
  unfold select_to_apply, get_pending_migrations. simpl listdir.
  rewrite filter_fmap.
  set (candidates := filter _ (filter _ (PyStr.sorted listing))).
  destruct (migrate_loop_blocks execute clock elapsed_ms md5 db_user dir fs
              candidates w) as (attempts & [later Hp] & Ha & Hups & Hex).
  set (files := attempts.*1) in *.
  assert (Hcand : files `sublist_of` candidates).
  { rewrite Hp. by apply sublist_inserts_r. }
  assert (Hsub : files `sublist_of` PyStr.sorted listing).
  { etrans; [exact Hcand|]. unfold candidates. etrans; apply sublist_filter. }
  assert (Hsorted : StronglySorted str_lt files).
  { apply StronglySorted_strict.
    - eapply sublist_NoDup; [|exact Hsub]. by rewrite sorted_Permutation.
    - eapply StronglySorted_sublist; [exact Hsub|]. apply sorted_StronglySorted. }
  assert (Hin : files ⊆ listing).
  { intros f Hf. eapply elem_of_sublist in Hf; [|exact Hsub].
    by rewrite sorted_Permutation in Hf. }
  split; [by exists attempts|].
  intros Hdistinct Hlen.
  assert (Hfiles : (upserts (events_of (loop_on fs (migration_of dir <$> candidates) w))).*1.*1
                   = file_version <$> files).
  { rewrite Hups, <- list_fmap_compose. done. }
  rewrite Hfiles.
  assert (Hpending : ∀ f, f ∈ files →
            migration_of dir f ∈ get_pending_migrations dir listing).
  { intros f Hf. apply elem_of_get_pending_migrations. exists f.
    split; [by apply Hin|]. split; [|done].
    assert (Hc : f ∈ candidates) by (rewrite Hp; apply elem_of_app; by left).
    apply list_elem_of_filter in Hc as [_ Hc].
    by apply list_elem_of_filter in Hc as [Hc _]. }
  apply StronglySorted_strict.
  - eapply sublist_NoDup; [exact Hdistinct|].
    unfold get_pending_migrations. rewrite <- list_fmap_compose.
    apply (fmap_sublist file_version).
    etrans; [exact Hcand|]. unfold candidates. apply sublist_filter.
  - clear Hfiles Hsub Hcand Hin Ha Hups Hex Hp. clearbody files.
    induction Hsorted as [|f files' Hs IH Hf].
    + constructor.
    + constructor.
      * apply IH. intros g Hg. apply Hpending. by right.
      * rewrite Forall_forall in Hf. apply Forall_forall.
        intros v (g & -> & Hg)%list_elem_of_fmap.
        apply file_version_le; [|by apply Hf].
        apply (Hlen (migration_of dir f) (migration_of dir g));
          apply Hpending; [left | by right].
Qed.

End ApplyOrder.

(** ** The properties on the small environment *)

Example discover_demo :
  get_pending_migrations "m" ["README.md"; "002_seed.sql"; "migrate.py"; "001_init.sql"]
  = [ Migration "001" "001_init" "m/001_init.sql";
      Migration "002" "002_seed" "m/002_seed.sql" ].
Proof. vm_compute. reflexivity. Qed.

Example strip_demo : PyStr.strip "  a b
 " = "a b".
Proof. vm_compute. reflexivity. Qed.

Example split_demo : PyStr.split ";" "a;b;;c;" = ["a"; "b"; ""; "c"; ""].
Proof. vm_compute. reflexivity. Qed.

Example replace_demo : PyStr.replace ".sql" "" "1_a.sql.sqlx.sq" = "1_ax.sq".
Proof. vm_compute. reflexivity. Qed.

(** Scenario 6 of the specification: two scripts on an empty table. *)
Example two_scripts_demo :
  let out :=
    Demo.run (Demo.files [("002_seed.sql", "INSERT INTO Foo VALUES (1);");
                          ("001_init.sql", "CREATE TABLE Foo (id INT);")])
             (Some Demo.world0) in
  upserts (trace out) = [("001", "001_init", applied); ("002", "002_seed", applied)]
  ∧ executed (trace out)
    = [("m/001_init.sql", "CREATE TABLE Foo (id INT)");
       ("m/002_seed.sql", "INSERT INTO Foo VALUES (1)")]
  ∧ last (trace out)
    = Some (Print (MsgStatus
        [StatusLine "001" "001_init" Check_mark applied (Some 10%Z);
         StatusLine "002" "002_seed" Check_mark applied (Some 20%Z)])).
Proof. vm_compute. done. Qed.

(** C1 (as stated) fails: the versions [1] and [10] are distinct, and the run
    attempts [10] before [1]. *)
Lemma C1_counterexample :
  let fs := Demo.files [("1_a.sql", "CREATE TABLE A (id INT);");
                        ("10_b.sql", "CREATE TABLE B (id INT);")] in
  let out := Demo.run fs (Some Demo.world0) in
  NoDup (version <$> get_pending_migrations "m" (listdir fs))
  ∧ (upserts (trace out)).*1.*1 = ["10"; "1"]
  ∧ ¬ StronglySorted str_lt ((upserts (trace out)).*1.*1).
Proof.
  intros fs out.
  assert (Hv : (upserts (trace out)).*1.*1 = ["10"; "1"])
    by (vm_compute; reflexivity).
  split; [|split; [exact Hv|]].
  - compute_done.
  - rewrite Hv. intros H. apply StronglySorted_inv in H as [_ H].
    apply Forall_inv in H as [H _]. vm_compute in H. exact H.
Qed.

Lemma C1_apply_order_witness :
  NoDup ["002_seed.sql"; "001_init.sql"]
  ∧ ["001_init.sql"; "002_seed.sql"] ≡ₚ ["002_seed.sql"; "001_init.sql"]
  ∧ StronglySorted str_lt
      ((upserts (trace (Demo.run
          (Demo.files [("002_seed.sql", "INSERT INTO Foo VALUES (1);");
                       ("001_init.sql", "CREATE TABLE Foo (id INT);")])
          (Some Demo.world0)))).*1.*1).
Proof.
  assert (Hnd : NoDup ["002_seed.sql"; "001_init.sql"])
    by compute_done.
  assert (Hperm : ["001_init.sql"; "002_seed.sql"] ≡ₚ ["002_seed.sql"; "001_init.sql"])
    by apply Permutation_swap.
  split; [exact Hnd|]. split; [exact Hperm|].
  refine (proj2 (proj2 (C1_apply_order Demo.execute Demo.clock Demo.elapsed_ms Demo.md5
    "root@localhost" "m"
    (read_text (Demo.files [("002_seed.sql", "INSERT INTO Foo VALUES (1);");
                            ("001_init.sql", "CREATE TABLE Foo (id INT);")]))
    (read_bytes (Demo.files [("002_seed.sql", "INSERT INTO Foo VALUES (1);");
                             ("001_init.sql", "CREATE TABLE Foo (id INT);")]))
    ["002_seed.sql"; "001_init.sql"] ["001_init.sql"; "002_seed.sql"]
    Demo.world0 Hnd Hperm)) _ _).
  - compute_done.
  - intros m m' Hm Hm'. vm_compute in Hm, Hm'.
    apply elem_of_cons in Hm as [->|Hm]; [|apply list_elem_of_singleton in Hm as ->];
    (apply elem_of_cons in Hm' as [->|Hm']; [|apply list_elem_of_singleton in Hm' as ->]);
    reflexivity.
Defined.

Lemma C3_applied_script_is_skipped_witness :
  let fs := Demo.files [("001_init.sql", "CREATE TABLE Foo (id INT);")] in
  let old := Row "001_init" (Some 5%Z) None (Some "md5:earlier text") None applied in
  let w := MkWorld 0%Z {["001" := old]} in
  let m := Migration "001" "001_init" "m/001_init.sql" in
  m ∈ get_pending_migrations "m" (listdir fs)
  ∧ migrations w !! version m = Some old
  ∧ row_status old = applied
  ∧ ∀ sql, (filepath m, sql) ∉ executed (trace (Demo.run fs (Some w))).
Proof.
  intros fs old w m.
  assert (Hm : m ∈ get_pending_migrations "m" (listdir fs)) by (vm_compute; left).
  assert (Hr : migrations w !! version m = Some old) by (vm_compute; reflexivity).
  split; [exact Hm|]. split; [exact Hr|]. split; [reflexivity|].
  exact (proj1 (C3_applied_script_is_skipped Demo.execute Demo.clock Demo.elapsed_ms Demo.md5
                  "root@localhost" "m" fs m w old Hm Hr eq_refl)).
Defined.

Lemma C4_halt_on_failure_witness :
  let fs := Demo.files [("001_init.sql", "CREATE TABLE Foo (id INT);");
                        ("002_bad.sql", "CREATE TABLE Bar (id INT); BAD; SELECT 1;");
                        ("003_more.sql", "CREATE TABLE Baz (id INT);")] in
  let to_apply :=
    select_to_apply
      (dom (filter (λ kv, row_status kv.2 = applied) (migrations Demo.world0)))
      (get_pending_migrations "m" (listdir fs)) in
  fails_at Demo.execute Demo.clock Demo.elapsed_ms Demo.md5 "root@localhost" fs to_apply Demo.world0 1
  ∧ ∃ m w',
      to_apply !! 1 = Some m
      ∧ upserts (trace (Demo.run fs (Some Demo.world0)))
        = ((λ m', (version m', name m', applied)) <$> take 1 to_apply)
          ++ [(version m, name m, failed)]
      ∧ (∀ script sql,
           (script, sql) ∈ executed (trace (Demo.run fs (Some Demo.world0))) →
           script ∈ filepath <$> take 2 to_apply)
      ∧ final_world (Demo.run fs (Some Demo.world0)) = Some w'
      ∧ (∃ r, migrations w' !! version m = Some r ∧ row_status r = failed
              ∧ StatusLine (version m) (row_name r) Cross_mark failed (applied_at r)
                ∈ select_status (migrations w'))
      ∧ exit_status (Demo.run fs (Some Demo.world0)) = 0%Z
      ∧ last (trace (Demo.run fs (Some Demo.world0)))
        = Some (Print (MsgStatus (select_status (migrations w')))).
Proof.
  intros fs to_apply.
  assert (Hk : fails_at Demo.execute Demo.clock Demo.elapsed_ms Demo.md5 "root@localhost" fs
                 to_apply Demo.world0 1).
  { assert (Hlist : to_apply = [Migration "001" "001_init" "m/001_init.sql";
                                Migration "002" "002_bad" "m/002_bad.sql";
                                Migration "003" "003_more" "m/003_more.sql"])
      by (vm_compute; reflexivity).
    rewrite Hlist. apply fails_later; [vm_compute; reflexivity|].
    apply fails_here. vm_compute. reflexivity. }
  split; [exact Hk|].
  exact (C4_halt_on_failure Demo.execute Demo.clock Demo.elapsed_ms Demo.md5 "root@localhost" "m"
           fs Demo.world0 1 Hk).
Defined.

Lemma C5_error_policy_witness :
  let statement := "CREATE TABLE TWICE (id INT)" in
  let err := "1050 (42S01): Table 'Foo' already exists" in
  let fs := Demo.files [("001_init.sql", "CREATE TABLE TWICE (id INT); SELECT 1;")] in
  is_executed statement = true
  ∧ Demo.execute statement (env Demo.world0) = (Some err, 1%Z)
  ∧ (result_of (run_statements Demo.Env Demo.execute "m/001_init.sql" [statement]
                  Demo.world0) = None
     ↔ PyStr.contains "Duplicate" err = true
       ∨ PyStr.contains "already exists" err = true).
Proof.
  intros statement err fs.
  split; [reflexivity|]. split; [reflexivity|].
  exact (proj1 (C5_error_policy Demo.execute Demo.clock Demo.elapsed_ms Demo.md5 "root@localhost"
                  fs (Migration "001" "001_init" "m/001_init.sql")
                  "m/001_init.sql" statement err ["SELECT 1"] Demo.world0 1%Z
                  eq_refl eq_refl)).
Defined.

Lemma C6_second_run_applies_nothing_witness :
  let fs := Demo.files [("002_seed.sql", "INSERT INTO Foo VALUES (1);");
                        ("001_init.sql", "CREATE TABLE Foo (id INT);")] in
  ∃ w1,
    final_world (Demo.run fs (Some Demo.world0)) = Some w1
    ∧ (∀ v n, (v, n, failed) ∉ upserts (trace (Demo.run fs (Some Demo.world0))))
    ∧ trace (Demo.run fs (Some (MkWorld 100%Z (migrations w1))))
      = [Print MsgBanner; Create_table; Commit; Print MsgNoPending;
         Print (MsgStatus (select_status (migrations w1)))].
Proof.
  intros fs.
  assert (Hno : ∀ v n, (v, n, failed) ∉ upserts (trace (Demo.run fs (Some Demo.world0)))).
  { intros v n.
    assert (Hu : upserts (trace (Demo.run fs (Some Demo.world0)))
                 = [("001", "001_init", applied); ("002", "002_seed", applied)])
      by (vm_compute; reflexivity).
    rewrite Hu. intros [H|H]%elem_of_cons; [discriminate|].
    apply list_elem_of_singleton in H. discriminate. }
  destruct (final_world (Demo.run fs (Some Demo.world0))) as [w1|] eqn:Hw1;
    [|vm_compute in Hw1; discriminate].
  exists w1. split; [reflexivity|]. split; [exact Hno|].
  exact (proj1 (C6_second_run_applies_nothing Demo.execute Demo.clock Demo.elapsed_ms Demo.md5
                  "root@localhost" "m" fs Demo.world0 w1 100%Z Hw1 Hno)).
Defined.

(** C7 (as stated) fails: on an unknown command the usage line is printed
    and the process ends with exit status 0. *)
Lemma C7_counterexample :
  let out := Demo.cli (Demo.files []) ["migrate.py"; "bogus"] (Some Demo.world0) in
  trace out = [Print MsgUsage] ∧ ¬ exit_status out ≠ 0%Z.
Proof. split; [reflexivity|]. intros H. by apply H. Qed.

Lemma C7_usage_witness :
  "bogus" ≠ "status"
  ∧ ("bogus" = "rollback" → [] = @nil string)
  ∧ Demo.cli (Demo.files []) ["migrate.py"; "bogus"] (Some Demo.world0)
    = Outcome 0 (Some Demo.world0) [Print MsgUsage].
Proof.
  assert (H1 : "bogus" ≠ "status") by discriminate.
  assert (H2 : "bogus" = "rollback" → [] = @nil string) by reflexivity.
  split; [exact H1|]. split; [exact H2|].
  exact (C7_usage Demo.execute Demo.clock Demo.elapsed_ms Demo.md5 "root@localhost" "m"
           (Demo.files []) "migrate.py" "bogus" [] (Some Demo.world0) H1 H2).
Defined.

(** C8, the code at the failing input: the first fragment of this script is
    not empty and is not a pure comment, since a [CREATE TABLE] follows its
    comment line, so that it is one of the fragments to execute; the code
    passes it over, sends the [INSERT] alone, and records the script as
    applied with its [CREATE TABLE] never executed. *)
Lemma C8_comment_led_statement_is_dropped :
  let text := "-- create the table
CREATE TABLE Foo (id INT);
INSERT INTO Foo VALUES (1);" in
  let fs := Demo.files [("001_init.sql", text)] in
  let m := Migration "001" "001_init" "m/001_init.sql" in
  let fragments := PyStr.split ";" (read_text fs (filepath m)) in
  let remaining :=
    filter (λ f, PyStr.strip f ≠ "" ∧ is_pure_comment f = false) fragments in
  let r := Demo.apply fs m Demo.world0 in
  PyStr.strip <$> remaining
  = ["-- create the table
CREATE TABLE Foo (id INT)"; "INSERT INTO Foo VALUES (1)"]
  ∧ result_of r = true
  ∧ (executed (events_of r)).*2 = ["INSERT INTO Foo VALUES (1)"]
  ∧ (executed (events_of r)).*2 ≠ PyStr.strip <$> remaining
  ∧ (executed (events_of r)).*2 ≠ remaining.
Proof. vm_compute. repeat split; discriminate. Qed.

(** C9 (as stated) fails: a script fails in a first run and again in a later
    run; the second failure is recorded on the existing row, whose
    [applied_at] keeps the time of the first run. *)
Lemma C9_counterexample :
  let fs := Demo.files [("001_init.sql", "BAD;")] in
  let out1 := Demo.run fs (Some Demo.world0) in
  ∃ w1 w2 row1 row2,
    final_world out1 = Some w1
    ∧ migrations w1 !! "001" = Some row1
    ∧ final_world (Demo.run fs (Some (MkWorld 50%Z (migrations w1)))) = Some w2
    ∧ upserts (trace (Demo.run fs (Some (MkWorld 50%Z (migrations w1)))))
      = [("001", "001_init", failed)]
    ∧ migrations w2 !! "001" = Some row2
    ∧ row_status row2 = failed
    ∧ applied_at row1 = Some 10%Z
    ∧ applied_at row2 = Some 10%Z
    ∧ Demo.clock (env (MkWorld 50%Z (migrations w1))) = 500%Z
    ∧ Demo.clock (env w2) = 510%Z.
Proof.
  intros fs out1.
  destruct (final_world out1) as [w1|] eqn:Hw1; [|vm_compute in Hw1; discriminate].
  vm_compute in Hw1. injection Hw1 as <-.
  eexists _, _, _, _. split; [reflexivity|].
  split; [vm_compute; reflexivity|]. split; [vm_compute; reflexivity|].
  vm_compute. repeat split; reflexivity.
Qed.

(** ** Further properties on the small environment *)

Lemma X4_every_write_is_committed_witness :
  let fs := Demo.files [("001_init.sql", "CREATE TABLE Foo (id INT);")] in
  let a := [Print MsgBanner; Create_table; Commit; Print (MsgFound 1);
            Print (MsgApplying "001_init");
            Execute "m/001_init.sql" "CREATE TABLE Foo (id INT)"] in
  let b := [Print (MsgApplied 10); Commit; Print MsgComplete;
            Print (MsgStatus
              [StatusLine "001" "001_init" Check_mark applied (Some 10%Z)])] in
  trace (Demo.run fs (Some Demo.world0)) = a ++ Upsert "001" "001_init" applied :: b
  ∧ ∃ between rest,
      b = between ++ Commit :: rest
      ∧ Forall (λ e, ∃ msg, e = Print msg) between.
Proof.
  intros fs a b.
  assert (H : trace (Demo.run fs (Some Demo.world0))
              = a ++ Upsert "001" "001_init" applied :: b)
    by (vm_compute; reflexivity).
  split; [exact H|].
  exact (X4_every_write_is_committed Demo.execute Demo.clock Demo.elapsed_ms Demo.md5
           "root@localhost" "m" fs Demo.world0 a b "001" "001_init" applied H).
Defined.

Lemma X5_name_drops_the_extension_witness :
  PyStr.contains ".sql" "001_init" = false
  ∧ name (migration_of "m" ("001_init" +:+ ".sql")) = "001_init".
Proof.
  split; [reflexivity|].
  exact (X5_name_drops_the_extension "m" "001_init" eq_refl).
Defined.

Lemma X7_statements_are_trimmed_witness :
  let text := "CREATE TABLE Foo (id INT);
  INSERT INTO Foo VALUES (1) ;" in
  let s := "INSERT INTO Foo VALUES (1)" in
  s ∈ split_statements text
  ∧ s ≠ "" ∧ PyStr.strip s = s ∧ PyStr.contains ";" s = false.
Proof.
  intros text s.
  assert (H : s ∈ split_statements text) by (vm_compute; right; left).
  split; [exact H|]. exact (X7_statements_are_trimmed text s H).
Defined.

Lemma X8_statements_sent_in_a_run_witness :
  let fs := Demo.files [("001_init.sql", "CREATE TABLE Foo (id INT);")] in
  ("m/001_init.sql", "CREATE TABLE Foo (id INT)")
    ∈ executed (trace (Demo.run fs (Some Demo.world0)))
  ∧ ∃ f, f ∈ listdir fs
         ∧ is_migration_file f = true
         ∧ "m/001_init.sql" = path_join "m" f
         ∧ (¬ ∃ r, migrations Demo.world0 !! file_version f = Some r
                   ∧ row_status r = applied)
         ∧ "CREATE TABLE Foo (id INT)"
             ∈ split_statements (read_text fs "m/001_init.sql")
         ∧ PyStr.startswith "--" "CREATE TABLE Foo (id INT)" = false
         ∧ PyStr.startswith "/*" "CREATE TABLE Foo (id INT)" = false.
Proof.
  intros fs.
  assert (H : ("m/001_init.sql", "CREATE TABLE Foo (id INT)")
                ∈ executed (trace (Demo.run fs (Some Demo.world0))))
    by (vm_compute; left).
  split; [exact H|].
  exact (X8_statements_sent_in_a_run Demo.execute Demo.clock Demo.elapsed_ms Demo.md5
           "root@localhost" "m" fs Demo.world0 _ _ H).
Defined.

Lemma X9_row_of_a_success_witness :
  let fs := Demo.files [("001_init.sql", "CREATE TABLE Foo (id INT);")] in
  let m := Migration "001" "001_init" "m/001_init.sql" in
  result_of (Demo.apply fs m Demo.world0) = true
  ∧ migrations (world_of (Demo.apply fs m Demo.world0)) !! "001"
    = Some (Row "001_init" (Some 10%Z) (Some "root@localhost")
                (Some "md5:CREATE TABLE Foo (id INT);") (Some 10%Z) applied).
Proof.
  intros fs m.
  assert (H : result_of (Demo.apply fs m Demo.world0) = true)
    by (vm_compute; reflexivity).
  split; [exact H|].
  exact (X9_row_of_a_success Demo.execute Demo.clock Demo.elapsed_ms Demo.md5
           "root@localhost" fs m Demo.world0 H).
Defined.

Lemma X10_success_after_failure_has_no_checksum_witness :
  let fs := Demo.files [("001_init.sql", "CREATE TABLE Foo (id INT);")] in
  let m := Migration "001" "001_init" "m/001_init.sql" in
  let attempt :=
    apply_migration Demo.Env Demo.execute_flaky Demo.clock Demo.elapsed_ms Demo.md5
                    "root@localhost" fs m in
  let w2 := MkWorld 5%Z (migrations (world_of (attempt Demo.world0))) in
  migrations Demo.world0 !! version m = None
  ∧ result_of (attempt Demo.world0) = false
  ∧ result_of (attempt w2) = true
  ∧ ∃ r, migrations (world_of (attempt w2)) !! version m = Some r
         ∧ row_status r = applied
         ∧ row_name r = name m
         ∧ checksum r = None
         ∧ applied_by r = None.
Proof.
  intros fs m attempt w2.
  assert (H1 : migrations Demo.world0 !! version m = None) by reflexivity.
  assert (H2 : result_of (attempt Demo.world0) = false)
    by (vm_compute; reflexivity).
  assert (H3 : result_of (attempt w2) = true) by (vm_compute; reflexivity).
  split; [exact H1|]. split; [exact H2|]. split; [exact H3|].
  exact (X10_success_after_failure_has_no_checksum Demo.execute_flaky
           Demo.clock Demo.elapsed_ms Demo.md5 "root@localhost" fs m Demo.world0 w2
           H1 H2 eq_refl H3).
Defined.

Lemma X11_applied_rows_are_kept_witness :
  let fs := Demo.files [("001_init.sql", "CREATE TABLE Foo (id INT);");
                        ("002_seed.sql", "INSERT INTO Foo VALUES (1);")] in
  let old := Row "001_init" (Some 5%Z) None (Some "md5:earlier text") None applied in
  let w := MkWorld 0%Z {["001" := old]} in
  ∃ w', final_world (Demo.cli fs ["migrate.py"] (Some w)) = Some w'
        ∧ migrations w' !! "001" = Some old.
Proof.
  intros fs old w.
  destruct (final_world (Demo.cli fs ["migrate.py"] (Some w))) as [w'|] eqn:Hw';
    [|vm_compute in Hw'; discriminate].
  exists w'. split; [reflexivity|].
  refine (proj2 (X11_applied_rows_are_kept Demo.execute Demo.clock Demo.elapsed_ms Demo.md5
                   "root@localhost" "m" fs ["migrate.py"] w w' Hw')
            "001" old _ eq_refl).
  vm_compute. reflexivity.
Defined.

Lemma X13_run_without_failure_is_complete_witness :
  let fs := Demo.files [("002_seed.sql", "INSERT INTO Foo VALUES (1);");
                        ("001_init.sql", "CREATE TABLE Foo (id INT);")] in
  let m := Migration "002" "002_seed" "m/002_seed.sql" in
  ∃ w', final_world (Demo.run fs (Some Demo.world0)) = Some w'
        ∧ (∀ v n, (v, n, failed) ∉ upserts (trace (Demo.run fs (Some Demo.world0))))
        ∧ m ∈ get_pending_migrations "m" (listdir fs)
        ∧ ∃ r, migrations w' !! version m = Some r ∧ row_status r = applied.
Proof.
  intros fs m.
  assert (Hno : ∀ v n, (v, n, failed) ∉ upserts (trace (Demo.run fs (Some Demo.world0)))).
  { intros v n.
    assert (Hu : upserts (trace (Demo.run fs (Some Demo.world0)))
                 = [("001", "001_init", applied); ("002", "002_seed", applied)])
      by (vm_compute; reflexivity).
    rewrite Hu. intros [H|H]%elem_of_cons; [discriminate|].
    apply list_elem_of_singleton in H. discriminate. }
  assert (Hm : m ∈ get_pending_migrations "m" (listdir fs))
    by (vm_compute; right; left).
  destruct (final_world (Demo.run fs (Some Demo.world0))) as [w'|] eqn:Hw';
    [|vm_compute in Hw'; discriminate].
  exists w'. split; [reflexivity|]. split; [exact Hno|]. split; [exact Hm|].
  exact (X13_run_without_failure_is_complete Demo.execute Demo.clock Demo.elapsed_ms Demo.md5
           "root@localhost" "m" fs Demo.world0 w' m Hw' Hno Hm).
Defined.

Lemma X14_messages_after_failure_witness :
  let fs := Demo.files [("001_init.sql", "CREATE TABLE Foo (id INT);");
                        ("002_bad.sql", "BAD;")] in
  let to_apply :=
    select_to_apply
      (dom (filter (λ kv, row_status kv.2 = applied) (migrations Demo.world0)))
      (get_pending_migrations "m" (listdir fs)) in
  fails_at Demo.execute Demo.clock Demo.elapsed_ms Demo.md5 "root@localhost" fs to_apply Demo.world0 1
  ∧ ∃ before w',
      final_world (Demo.run fs (Some Demo.world0)) = Some w'
      ∧ trace (Demo.run fs (Some Demo.world0))
        = before ++ [Commit; Print MsgStopping; Print MsgComplete;
                     Print (MsgStatus (select_status (migrations w')))].
Proof.
  intros fs to_apply.
  assert (Hk : fails_at Demo.execute Demo.clock Demo.elapsed_ms Demo.md5 "root@localhost" fs
                 to_apply Demo.world0 1).
  { assert (Hlist : to_apply = [Migration "001" "001_init" "m/001_init.sql";
                                Migration "002" "002_bad" "m/002_bad.sql"])
      by (vm_compute; reflexivity).
    rewrite Hlist. apply fails_later; [vm_compute; reflexivity|].
    apply fails_here. vm_compute. reflexivity. }
  split; [exact Hk|].
  exact (X14_messages_after_failure Demo.execute Demo.clock Demo.elapsed_ms Demo.md5
           "root@localhost" "m" fs Demo.world0 1 Hk).
Defined.

Lemma X15_nothing_pending_witness :
  let fs := Demo.files [("001_init.sql", "CREATE TABLE Foo (id INT);");
                        ("notes.txt", "not a script")] in
  let old := Row "001_init" (Some 5%Z) None None None applied in
  let w := MkWorld 0%Z {["001" := old]} in
  (∀ m, m ∈ get_pending_migrations "m" (listdir fs) →
        ∃ r, migrations w !! version m = Some r ∧ row_status r = applied)
  ∧ trace (Demo.run fs (Some w))
    = [Print MsgBanner; Create_table; Commit; Print MsgNoPending;
       Print (MsgStatus (select_status (migrations w)))].
Proof.
  intros fs old w.
  assert (H : ∀ m, m ∈ get_pending_migrations "m" (listdir fs) →
                ∃ r, migrations w !! version m = Some r ∧ row_status r = applied).
  { intros m Hm. vm_compute in Hm. apply list_elem_of_singleton in Hm as ->.
    exists old. split; [vm_compute|]; reflexivity. }
  split; [exact H|].
  exact (proj1 (X15_nothing_pending Demo.execute Demo.clock Demo.elapsed_ms
                  Demo.md5 "root@localhost" "m" fs w H)).
Defined.

Lemma X2_status_after_a_run_witness :
  let fs := Demo.files [("001_init.sql", "CREATE TABLE Foo (id INT);")] in
  ∃ w', final_world (Demo.run fs (Some Demo.world0)) = Some w'
        ∧ trace (Demo.cli fs ["migrate.py"; "status"]
                   (Some (MkWorld 100%Z (migrations w'))))
          = [Create_table;
             Print (MsgStatus
               [StatusLine "001" "001_init" Check_mark applied (Some 10%Z)])].
Proof.
  intros fs.
  destruct (final_world (Demo.run fs (Some Demo.world0))) as [w'|] eqn:Hw';
    [|vm_compute in Hw'; discriminate].
  exists w'. split; [reflexivity|].
  destruct (X2_status_after_a_run Demo.execute Demo.clock Demo.elapsed_ms
              Demo.md5 "root@localhost" "m" fs "migrate.py" [] Demo.world0 w'
              100%Z Hw')
    as (_ & _ & _ & listing & Htrace & Hlast).
  etrans; [exact Htrace|].
  vm_compute in Hlast. by injection Hlast as <-.
Defined.

Lemma X12_rows_written_by_a_run_witness :
  let fs := Demo.files [("002_seed.sql", "INSERT INTO Foo VALUES (1);");
                        ("001_init.sql", "CREATE TABLE Foo (id INT);")] in
  ∃ w', final_world (Demo.run fs (Some Demo.world0)) = Some w'
        ∧ (∀ v n, (v, n, failed) ∉ upserts (trace (Demo.run fs (Some Demo.world0))))
        ∧ upserts (trace (Demo.run fs (Some Demo.world0)))
          = (λ m, (version m, name m, applied))
            <$> select_to_apply
                  (dom (filter (λ kv, row_status kv.2 = applied)
                          (migrations Demo.world0)))
                  (get_pending_migrations "m" (listdir fs)).
Proof.
  intros fs.
  assert (Hno : ∀ v n, (v, n, failed) ∉ upserts (trace (Demo.run fs (Some Demo.world0)))).
  { intros v n.
    assert (Hu : upserts (trace (Demo.run fs (Some Demo.world0)))
                 = [("001", "001_init", applied); ("002", "002_seed", applied)])
      by (vm_compute; reflexivity).
    rewrite Hu. intros [H|H]%elem_of_cons; [discriminate|].
    apply list_elem_of_singleton in H. discriminate. }
  destruct (final_world (Demo.run fs (Some Demo.world0))) as [w'|] eqn:Hw';
    [|vm_compute in Hw'; discriminate].
  exists w'. split; [reflexivity|]. split; [exact Hno|].
  exact (proj1 (X12_rows_written_by_a_run Demo.execute Demo.clock
                  Demo.elapsed_ms Demo.md5 "root@localhost" "m" fs
                  Demo.world0 w' Hw') Hno).
Defined.

Lemma X3_connection_failure_witness :
  let fs := Demo.files [("001_init.sql", "CREATE TABLE Foo (id INT);")] in
  (["migrate.py"; "status"] !! 1 = None
   ∨ ["migrate.py"; "status"] !! 1 = Some "status")
  ∧ exit_status (Demo.cli fs ["migrate.py"; "status"] None) = 1%Z
  ∧ "rollback" ≠ "status"
  ∧ trace (Demo.cli fs ["migrate.py"; "rollback"; "001"] (Some Demo.world0))
    = trace (Demo.cli fs ["migrate.py"; "rollback"; "001"] None).
Proof.
  intros fs.
  assert (H1 : ["migrate.py"; "status"] !! 1 = None
               ∨ ["migrate.py"; "status"] !! 1 = Some "status")
    by (right; reflexivity).
  assert (H2 : "rollback" ≠ "status") by discriminate.
  split; [exact H1|].
  split; [exact (proj1 (proj1 (X3_connection_failure Demo.execute Demo.clock
                   Demo.elapsed_ms Demo.md5 "root@localhost" "m" fs
                   ["migrate.py"; "status"]) H1))|].
  split; [exact H2|].
  exact (proj2 (proj2 (proj2 (X3_connection_failure Demo.execute Demo.clock
           Demo.elapsed_ms Demo.md5 "root@localhost" "m" fs
           ["migrate.py"; "rollback"; "001"])
           "rollback" (Some Demo.world0) eq_refl H2))).
Defined.
